(** * google.cloud.pubsub_v1.types: settings records and export list

    A shallow embedding of [pubsub/google/cloud/pubsub_v1/types.py]:
    the two [collections.namedtuple] settings classes [BatchSettings] and
    [FlowControl] with their [__new__.__defaults__], the object store the
    records live in, and the computation of [__all__].  The publish-side
    batching aggregator and the subscribe-side flow-controlled receiver that
    consume these records are separate modules of the package; they are
    modelled from the specification and marked as such. *)

From Stdlib Require Import ZArith QArith Qabs String Ascii List Lia Lqa.
From Stdlib Require Import Floats.SpecFloat.
From stdpp Require Import base gmap strings list sorting.

(* ===================================================================== *)
(** * Part I. Definitions                                                 *)
(* ===================================================================== *)

(** ** Python values *)

(** Python [float] is IEEE 754 binary64: 53 bits of precision, exponents
    below 1024.  Floats are carried as [spec_float]. *)
Definition prec : Z := 53.
Definition emax : Z := 1024.

(** [float_of_Z z] is [float(z)], exact for [|z| < 2^53]. *)
Definition float_of_Z (z : Z) : spec_float := binary_normalize prec emax z 0 false.

(** The float literal [m]e-[k] (for instance [0.05] is [decimal 5 2]).
    Python reads a literal as the double nearest to its decimal value; for
    [m] and [10^k] below [2^53] this is the correctly rounded quotient of the
    two exactly represented integers. *)
Definition decimal (m : Z) (k : Z) : spec_float :=
  SFdiv prec emax (float_of_Z m) (float_of_Z (10 ^ k)).

(** The exact rational value of a finite float. *)
Definition Q_of_float (f : spec_float) : option Q :=
  match f with
  | S754_zero _ => Some 0%Q
  | S754_finite s m e =>
      let v := cond_Zopp s (Zpos m) in
      Some (if (0 <=? e)%Z then inject_Z (v * 2 ^ e) else Qmake v (Z.to_pos (2 ^ (- e))))
  | _ => None
  end.

(** [f] is a double within half a unit in the last place of [q]. *)
Definition nearest_double (f : spec_float) (q : Q) : Prop :=
  valid_binary prec emax f = true ∧
  match f with
  | S754_finite _ _ e =>
      ∃ v, Q_of_float f = Some v ∧ (Qabs (v - q) <= inject_Z 2 ^ (e - 1))%Q
  | _ => False
  end.

(** The values a field of a settings record holds in practice.  [bool] is a
    subclass of [int] in Python and compares as [0] or [1]. *)
Inductive pyval :=
| PNone
| PBool (b : bool)
| PInt (z : Z)
| PFloat (f : spec_float)
| PStr (s : string).

(** [int == float] compares the exact values. *)
Definition float_eq_Z (f : spec_float) (z : Z) : bool :=
  match f with
  | S754_zero _ => (z =? 0)%Z
  | S754_finite s m e =>
      let v := cond_Zopp s (Zpos m) in
      if (0 <=? e)%Z then (z =? v * 2 ^ e)%Z else (v =? z * 2 ^ (- e))%Z
  | _ => false
  end.

Definition Z_of_bool (b : bool) : Z := if b then 1%Z else 0%Z.

(** Python's [==] on these values: numbers compare by value across [bool],
    [int] and [float] (IEEE equality on floats, so [nan != nan]); [None] and
    strings are equal only to themselves. *)
Definition py_eq (a b : pyval) : bool :=
  match a, b with
  | PNone, PNone => true
  | PStr s, PStr t => bool_decide (s = t)
  | PBool x, PBool y => (Z_of_bool x =? Z_of_bool y)%Z
  | PBool x, PInt y => (Z_of_bool x =? y)%Z
  | PInt x, PBool y => (x =? Z_of_bool y)%Z
  | PInt x, PInt y => (x =? y)%Z
  | PFloat x, PFloat y => SFeqb x y
  | PFloat x, PInt y => float_eq_Z x y
  | PInt x, PFloat y => float_eq_Z y x
  | PFloat x, PBool y => float_eq_Z x (Z_of_bool y)
  | PBool x, PFloat y => float_eq_Z y (Z_of_bool x)
  | _, _ => false
  end.

(** ** Exceptions *)

Inductive exn := TypeError | AttributeError | IndexError | ValueError | NameError.

Inductive result (A : Type) :=
| Ok (a : A)
| Raise (e : exn).
Arguments Ok {A} a.
Arguments Raise {A} e.

(** Exceptions propagate through sequencing: [result] is an error monad,
    with stdpp's [x ← r; k] notation. *)
#[global] Instance result_ret : MRet result := λ A a, Ok a.
#[global] Instance result_bind : MBind result := λ A B k r,
  match r with
  | Ok a => k a
  | Raise e => Raise e
  end.

Definition is_ok {A} (r : result A) : bool :=
  match r with Ok _ => true | Raise _ => false end.

Fixpoint collect {A} (rs : list (result A)) : result (list A) :=
  match rs with
  | [] => Ok []
  | r :: rs' => a ← r; l ← collect rs'; Ok (a :: l)
  end.

(** ** [collections.namedtuple] *)

(** A class made by [namedtuple(typename, field_names)]: its name, its
    [_fields], and the [__defaults__] of its [__new__], which apply to the
    last parameters. *)
Record nt_class := {
  cls_name : string;
  _fields : list string;
  __defaults__ : list pyval
}.

(** [collections.namedtuple(typename, field_names)]: no defaults yet. *)
Definition namedtuple (typename : string) (field_names : list string) : nt_class :=
  {| cls_name := typename; _fields := field_names; __defaults__ := [] |}.

(** [cls.__new__.__defaults__ = ds]. *)
Definition set_defaults (cls : nt_class) (ds : list pyval) : nt_class :=
  {| cls_name := cls_name cls; _fields := _fields cls; __defaults__ := ds |}.

(** An instance is a tuple of its class. *)
Record nt_obj := {
  ob_type : nt_class;
  ob_items : list pyval
}.

(** The default of the parameter at position [i], if it has one. *)
Definition default_for (cls : nt_class) (i : nat) : result pyval :=
  let nreq := (length (_fields cls) - length (__defaults__ cls))%nat in
  if decide (nreq ≤ i)%nat then
    match __defaults__ cls !! (i - nreq)%nat with
    | Some d => Ok d
    | None => Raise TypeError
    end
  else Raise TypeError.

(** Binding of one parameter of [__new__(_cls, f1, ..., fn)] in a call with
    positional [args] and keyword [kwargs]: a parameter given both ways is a
    [TypeError], one given neither way takes its default, and it is a
    [TypeError] when there is none. *)
Definition bind_param (cls : nt_class) (args : list pyval)
    (kwargs : gmap string pyval) (i : nat) (name : string) : result pyval :=
  match args !! i, kwargs !! name with
  | Some _, Some _ => Raise TypeError
  | Some v, None => Ok v
  | None, Some v => Ok v
  | None, None => default_for cls i
  end.

(** The call of the class with positional [args] and keyword [kwargs].  More positional arguments than fields,
    or a keyword that is no field, is a [TypeError].  Nothing looks at the
    values bound. *)
Definition nt_new (cls : nt_class) (args : list pyval)
    (kwargs : gmap string pyval) : result nt_obj :=
  if decide (length (_fields cls) < length args)%nat then Raise TypeError
  else if decide (map_Forall (λ k _, k ∈ _fields cls) kwargs) then
    items ← collect (imap (bind_param cls args kwargs) (_fields cls));
    Ok {| ob_type := cls; ob_items := items |}
  else Raise TypeError.

(** [cls._make(iterable)]: no defaults, the length must match. *)
Definition nt_make (cls : nt_class) (iterable : list pyval) : result nt_obj :=
  if decide (length iterable = length (_fields cls)) then
    Ok {| ob_type := cls; ob_items := iterable |}
  else Raise TypeError.

(** The position of a field name. *)
Fixpoint index_of (name : string) (names : list string) : option nat :=
  match names with
  | [] => None
  | n :: names' => if decide (n = name) then Some 0%nat else S <$> index_of name names'
  end.

(** [obj.name] for a field name: each field is a property reading its
    position of the tuple.  Methods and class attributes are outside the
    model; a name that is no field reads as [AttributeError]. *)
Definition nt_getattr (o : nt_obj) (name : string) : result pyval :=
  match index_of name (_fields (ob_type o)) with
  | Some i =>
      match ob_items o !! i with
      | Some v => Ok v
      | None => Raise IndexError
      end
  | None => Raise AttributeError
  end.

(** [obj[i]], with Python's negative indices. *)
Definition nt_getitem (o : nt_obj) (i : Z) : result pyval :=
  let n := Z.of_nat (length (ob_items o)) in
  let j := if (i <? 0)%Z then (i + n)%Z else i in
  if ((0 <=? j) && (j <? n))%Z then
    match ob_items o !! Z.to_nat j with
    | Some v => Ok v
    | None => Raise IndexError
    end
  else Raise IndexError.

(** [obj._replace] with keyword [kwargs]: a new tuple made from the old items with the
    named ones replaced; a name that is no field is a [ValueError]. *)
Definition nt_replace (o : nt_obj) (kwargs : gmap string pyval) : result nt_obj :=
  let cls := ob_type o in
  if decide (map_Forall (λ k _, k ∈ _fields cls) kwargs) then
    nt_make cls (zip_with (λ name old, default old (kwargs !! name))
                          (_fields cls) (ob_items o))
  else Raise ValueError.

(** [a == b] on tuples: same length and items pairwise [==]. *)
Fixpoint tuple_eq (a b : list pyval) : bool :=
  match a, b with
  | [], [] => true
  | x :: a', y :: b' => py_eq x y && tuple_eq a' b'
  | _, _ => false
  end.

Definition nt_eq (a b : nt_obj) : bool := tuple_eq (ob_items a) (ob_items b).

(** ** The settings classes *)

(** [BatchSettings = collections.namedtuple(...)] followed by
    [BatchSettings.__new__.__defaults__ = (1000 * 1000 * 10, 0.05, 1000)]. *)
Definition BatchSettings : nt_class :=
  set_defaults
    (namedtuple "BatchSettings" ["max_bytes"; "max_latency"; "max_messages"])
    [ PInt (1000 * 1000 * 10);
      PFloat (decimal 5 2);
      PInt 1000 ].

(** [FlowControl = collections.namedtuple(...)] followed by
    [FlowControl.__new__.__defaults__ = (100 * 1024 * 1024, 100, 0.8, 100,
    100, 0.01, 2 * 60 * 60)]. *)
Definition FlowControl : nt_class :=
  set_defaults
    (namedtuple "FlowControl"
       ["max_bytes"; "max_messages"; "resume_threshold"; "max_requests";
        "max_request_batch_size"; "max_request_batch_latency";
        "max_lease_duration"])
    [ PInt (100 * 1024 * 1024);
      PInt 100;
      PFloat (decimal 8 1);
      PInt 100;
      PInt 100;
      PFloat (decimal 1 2);
      PInt (2 * 60 * 60) ].

(** A class with as many defaults as fields and no field name twice, as
    the two classes are. *)
Definition fully_defaulted (cls : nt_class) : Prop :=
  length (__defaults__ cls) = length (_fields cls) ∧ NoDup (_fields cls).

(** ** The object store *)

(** Records are heap objects reached through references; the store lists
    them in allocation order and a reference is a position in it. *)
Abbreviation addr := nat (only parsing).
Abbreviation store := (list nt_obj) (only parsing).

(** What a program can do with the two classes and their instances:
    construct ([cls(...)], [cls._make(...)], [obj._replace(...)]), read
    ([obj.name], [obj[i]]) and attempt to write ([obj.name = v],
    [del obj.name], [obj[i] = v]). *)
Inductive op :=
| New (cls : nt_class) (args : list pyval) (kwargs : gmap string pyval)
| Make (cls : nt_class) (iterable : list pyval)
| Replace (a : addr) (kwargs : gmap string pyval)
| GetAttr (a : addr) (name : string)
| GetItem (a : addr) (i : Z)
| SetAttr (a : addr) (name : string) (v : pyval)
| DelAttr (a : addr) (name : string)
| SetItem (a : addr) (i : Z) (v : pyval).

Inductive outcome :=
| Val (v : pyval)
| Ref (a : addr)
| Exc (e : exn).

Definition alloc (σ : store) (r : result nt_obj) : store * outcome :=
  match r with
  | Ok o => (σ ++ [o], Ref (length σ))
  | Raise e => (σ, Exc e)
  end.

Definition read (r : result pyval) : outcome :=
  match r with
  | Ok v => Val v
  | Raise e => Exc e
  end.

(** One operation.  A namedtuple class has [__slots__ = ()] and read-only
    properties for its fields, so assigning or deleting an attribute raises
    [AttributeError]; a tuple does not support item assignment, which raises
    [TypeError].  An unbound reference is a [NameError]. *)
Definition do_op (σ : store) (o : op) : store * outcome :=
  match o with
  | New cls args kwargs => alloc σ (nt_new cls args kwargs)
  | Make cls iterable => alloc σ (nt_make cls iterable)
  | Replace a kwargs =>
      match σ !! a with
      | Some r => alloc σ (nt_replace r kwargs)
      | None => (σ, Exc NameError)
      end
  | GetAttr a name =>
      match σ !! a with
      | Some r => (σ, read (nt_getattr r name))
      | None => (σ, Exc NameError)
      end
  | GetItem a i =>
      match σ !! a with
      | Some r => (σ, read (nt_getitem r i))
      | None => (σ, Exc NameError)
      end
  | SetAttr a _ _ | DelAttr a _ =>
      match σ !! a with
      | Some _ => (σ, Exc AttributeError)
      | None => (σ, Exc NameError)
      end
  | SetItem a _ _ =>
      match σ !! a with
      | Some _ => (σ, Exc TypeError)
      | None => (σ, Exc NameError)
      end
  end.

(** A program: the store after a sequence of operations. *)
Definition exec (σ : store) (ops : list op) : store :=
  fold_left (λ σ o, fst (do_op σ o)) ops σ.

(** ** The export list *)

(** The protobuf modules the file imports. *)
Inductive pb_module :=
| http_pb2 | iam_policy_pb2 | policy_pb2 | audit_data_pb2 | descriptor_pb2
| duration_pb2 | empty_pb2 | field_mask_pb2 | timestamp_pb2 | pubsub_pb2.

Definition _shared_modules : list pb_module :=
  [http_pb2; iam_policy_pb2; policy_pb2; audit_data_pb2; descriptor_pb2;
   duration_pb2; empty_pb2; field_mask_pb2; timestamp_pb2].

Definition _local_modules : list pb_module := [pubsub_pb2].

(** The module being initialised: the list [names] and the attributes set
    on the module object. *)
Record module_state (message : Type) := {
  names : list string;
  attrs : gmap string message
}.
Arguments names {message} _.
Arguments attrs {message} _.

(** The body of both loops: [setattr(module, name, message)] and
    [names.append(name)] for every item of [get_messages(module)].
    [get_messages] comes from [google.api_core.protobuf_helpers] and the
    generated [_pb2] modules are not part of this file, so the items are a
    parameter; [retag] is what the loop does to a message before exporting
    it (the local loop sets its [__module__], the shared loop nothing). *)
Definition export_module {message} (retag : message → message)
    (get_messages : pb_module → list (string * message))
    (st : module_state message) (module : pb_module) : module_state message :=
  fold_left
    (λ st item,
       {| names := names st ++ [item.1];
          attrs := <[item.1 := retag item.2]> (attrs st) |})
    (get_messages module) st.

(** The module state after [names = ["BatchSettings", "FlowControl"]] and
    the two loops.  The two classes are module attributes by assignment and
    are not tracked in [attrs]. *)
Definition exported {message} (set_module : message → message)
    (get_messages : pb_module → list (string * message)) : module_state message :=
  let st0 := {| names := ["BatchSettings"; "FlowControl"]; attrs := ∅ |} in
  let st1 := fold_left (export_module id get_messages) _shared_modules st0 in
  fold_left (export_module set_module get_messages) _local_modules st1.

(** Python orders [str] by code point; on the byte strings used here that is
    the lexicographic order of [String.leb]. *)
Definition str_le (a b : string) : Prop := String.leb a b = true.

#[global] Instance str_le_dec a b : Decision (str_le a b).
Proof. unfold str_le. apply _. Defined.

(** [__all__ = tuple(sorted(names))]; [sorted] is a stable merge sort. *)
Definition __all__ {message} (set_module : message → message)
    (get_messages : pb_module → list (string * message)) : list string :=
  merge_sort str_le (names (exported set_module get_messages)).

(** What the module's attributes [BatchSettings], [FlowControl] and the
    exported message names are bound to when the body is done.  The two
    classes are assigned before the loops run, so a [setattr] of the same
    name rebinds it: the messages take precedence. *)
Definition module_namespace {message} (set_module : message → message)
    (get_messages : pb_module → list (string * message))
    : gmap string (nt_class + message) :=
  (inr <$> attrs (exported set_module get_messages))
  ∪ {[ "BatchSettings" := inl BatchSettings; "FlowControl" := inl FlowControl ]}.

(** ** Docstrings *)

(** What a docstring assignment addresses: [cls.__doc__] or
    [cls.field.__doc__]. *)
Inductive doc_target :=
| ClassDoc (cls : nt_class)
| FieldDoc (cls : nt_class) (field : string).

(** [sys.version_info >= (3, 5)] for a version [major.minor]: tuples
    compare lexicographically, and a longer tuple is not below its prefix. *)
Definition at_least_3_5 (major minor : Z) : bool :=
  (3 <? major)%Z || ((major =? 3)%Z && (5 <=? minor)%Z).

(** The assignments inside the two [if sys.version_info >= (3, 5)] blocks,
    in order.  [textwrap.dedent] is outside the file and a parameter. *)
Definition doc_assignments (dedent : string → string) : list (doc_target * string) :=
[
  (ClassDoc BatchSettings,
   "The settings for batch publishing the messages.");
  (FieldDoc BatchSettings "max_bytes",
   "The maximum total size of the messages to collect before automatically publishing the batch.");
  (FieldDoc BatchSettings "max_latency",
   "The maximum number of seconds to wait for additional messages before automatically publishing the batch.");
  (FieldDoc BatchSettings "max_messages",
   "The maximum number of messages to collect before automatically publishing the batch.");
  (ClassDoc FlowControl,
   "The settings for controlling the rate at which messages are pulled with an asynchronous subscription.");
  (FieldDoc FlowControl "max_bytes",
   "The maximum total size of received - but not yet processed - messages before pausing the message stream.");
  (FieldDoc FlowControl "max_messages",
   "The maximum number of received - but not yet processed - messages before pausing the message stream.");
  (FieldDoc FlowControl "resume_threshold",
   dedent "
        The relative threshold of the ``max_bytes`` and ``max_messages`` limits
        below which to resume the message stream. Must be a positive number not
        greater than ``1.0``.

        .. note::
            .. deprecated:: 0.44.0
                Will be removed in future versions.");
  (FieldDoc FlowControl "max_requests",
   dedent "
        Currently not in use.

        .. note::
            .. deprecated:: 0.44.0
                Will be removed in future versions.");
  (FieldDoc FlowControl "max_request_batch_size",
   dedent "
        The maximum number of requests scheduled by callbacks to process and
        dispatch at a time.

        .. note::
            .. deprecated:: 0.44.0
                Will be removed in future versions.");
  (FieldDoc FlowControl "max_request_batch_latency",
   dedent "
        The maximum amount of time in seconds to wait for additional request
        items before processing the next batch of requests.

        .. note::
            .. deprecated:: 0.44.0
                Will be removed in future versions.");
  (FieldDoc FlowControl "max_lease_duration",
   "The maximum amount of time in seconds to hold a lease on a message before dropping it from the lease management.")
].

(** The docstrings set so far, by class name and field ([None] for the
    class itself). *)
Abbreviation docs := (gmap (string * option string) string) (only parsing).

(** One assignment.  [cls.field] is looked up first; a name that is no
    field of the class would raise [AttributeError]. *)
Definition assign_doc (ds : docs) (a : doc_target * string) : result docs :=
  match a.1 with
  | ClassDoc cls => Ok (<[(cls_name cls, None) := a.2]> ds)
  | FieldDoc cls field =>
      if decide (field ∈ _fields cls)
      then Ok (<[(cls_name cls, Some field) := a.2]> ds)
      else Raise AttributeError
  end.

Fixpoint assign_docs (ds : docs) (l : list (doc_target * string)) : result docs :=
  match l with
  | [] => Ok ds
  | a :: l' => ds' ← assign_doc ds a; assign_docs ds' l'
  end.

(** The docstrings after the module body, on Python [major.minor]. *)
Definition module_docs (dedent : string → string) (major minor : Z) : result docs :=
  if at_least_3_5 major minor then assign_docs ∅ (doc_assignments dedent) else Ok ∅.

(** The class name and field an assignment addresses. *)
Definition doc_key (a : doc_target * string) : string * option string :=
  match a.1 with
  | ClassDoc cls => (cls_name cls, None)
  | FieldDoc cls field => (cls_name cls, Some field)
  end.

(** The attribute an assignment addresses exists. *)
Definition well_targeted (a : doc_target * string) : Prop :=
  match a.1 with
  | ClassDoc _ => True
  | FieldDoc cls field => field ∈ _fields cls
  end.

(** A class and each of its fields. *)
Definition doc_targets (cls : nt_class) : list (string * option string) :=
  (cls_name cls, None) :: ((λ f, (cls_name cls, Some f)) <$> _fields cls).

(** ** Reading a settings record *)

(** How an engine reads a numeric field of a record it was given. *)
Definition field (o : nt_obj) (name : string) : option pyval :=
  match nt_getattr o name with
  | Ok v => Some v
  | Raise _ => None
  end.

Definition as_Z (v : pyval) : option Z :=
  match v with
  | PInt z => Some z
  | PBool b => Some (Z_of_bool b)
  | _ => None
  end.

Definition as_Q (v : pyval) : option Q :=
  match v with
  | PInt z => Some (inject_Z z)
  | PBool b => Some (inject_Z (Z_of_bool b))
  | PFloat f => Q_of_float f
  | _ => None
  end.

(** ** The batching aggregator *)

(** The aggregator is the publisher's batch module, which consumes a
    [BatchSettings] record; its code is outside this file and is modelled
    from the specification (section 4.1), for one topic. *)

Module Aggregator.

(** The thresholds of a [BatchSettings] record. *)
Record settings := {
  max_bytes : Z;
  max_latency : Q;
  max_messages : Z
}.

Definition of_record (o : nt_obj) : option settings :=
  b ← field o "max_bytes" ≫= as_Z;
  l ← field o "max_latency" ≫= as_Q;
  n ← field o "max_messages" ≫= as_Z;
  Some {| max_bytes := b; max_latency := l; max_messages := n |}.

(** An outgoing message: which one it is and its size in bytes. *)
Record message := {
  msg_id : nat;
  msg_size : N
}.

(** Modelled from the spec: the aggregator's Batch, which lives in the
    publisher package and not in this file.  "Ordered sequence of pending
    messages, running byte total, ... and a single outstanding flush
    trigger (timer)"; [timer] holds the duration the trigger was armed
    with.  The creation timestamp is left out: the timer's firing is an
    event of the model. *)
Record batch := {
  messages : list message;
  bytes : Z;
  timer : option Q
}.

(** Modelled from the spec: a new Batch, with no message and no timer. *)
Definition empty : batch := {| messages := []; bytes := 0; timer := None |}.

Definition count (b : batch) : Z := Z.of_nat (length (messages b)).

(** Modelled from the spec: what happens to one topic, a submit, the firing
    of the latency timer, a manual flush. *)
Inductive event :=
| Submit (m : message)
| TimerFired
| Flush.

(** Modelled from the spec: "append and arm/refresh a latency timer of
    duration max_latency from the first message in the batch". *)
Definition append (cfg : settings) (b : batch) (m : message) : batch :=
  {| messages := messages b ++ [m];
     bytes := bytes b + Z.of_N (msg_size m);
     timer := match timer b with
              | Some d => Some d
              | None => Some (max_latency cfg)
              end |}.

(** Modelled from the spec: flushing hands the batch's messages to the
    transport; a batch without messages has nothing to hand over. *)
Definition flush (b : batch) : list (list message) :=
  match messages b with
  | [] => []
  | _ => [messages b]
  end.

(** Modelled from the spec: "appending the message would exceed
    max_bytes". *)
Definition would_exceed (cfg : settings) (b : batch) (m : message) : bool :=
  (max_bytes cfg <? bytes b + Z.of_N (msg_size m))%Z.

(** Modelled from the spec: "appending the message would ... reach
    max_messages". *)
Definition would_reach (cfg : settings) (b : batch) (m : message) : bool :=
  (max_messages cfg <=? count b + 1)%Z.

(** Modelled from the spec: the aggregator's algorithm (section 4.1).
    "On each submit, check thresholds: if appending the message would
    exceed max_bytes or reach max_messages, first flush the current batch
    (without the new message), start a new Batch, then append.  If within
    thresholds, append and arm/refresh a latency timer ...; when the timer
    fires, flush unconditionally."  "A manual explicit flush operation ...
    forces immediate flush ... regardless of thresholds."  The result is
    the batch now pending and the batches handed to the transport. *)
Definition step (cfg : settings) (b : batch) (e : event)
    : batch * list (list message) :=
  match e with
  | Submit m =>
      if would_exceed cfg b m || would_reach cfg b m
      then (append cfg empty m, flush b)
      else (append cfg b m, [])
  | TimerFired =>
      match timer b with
      | Some _ => (empty, flush b)
      | None => (b, [])
      end
  | Flush => (empty, flush b)
  end.

(** A sequence of events, from a given batch: the pending batch and all
    flushed batches in order. *)
Fixpoint run (cfg : settings) (b : batch) (es : list event)
    : batch * list (list message) :=
  match es with
  | [] => (b, [])
  | e :: es' =>
      let '(b1, out1) := step cfg b e in
      let '(b2, out2) := run cfg b1 es' in
      (b2, out1 ++ out2)
  end.








End Aggregator.

(** ** The flow-controlled receiver *)

(** The receiver is the subscriber's streaming-pull module, which consumes a
    [FlowControl] record; its code is outside this file and is modelled from
    the specification (section 4.2). *)

Module Receiver.

(** The thresholds of a [FlowControl] record that admission uses. *)
Record settings := {
  max_bytes : Z;
  max_messages : Z;
  resume_threshold : Q
}.

Definition of_record (o : nt_obj) : option settings :=
  b ← field o "max_bytes" ≫= as_Z;
  n ← field o "max_messages" ≫= as_Z;
  t ← field o "resume_threshold" ≫= as_Q;
  Some {| max_bytes := b; max_messages := n; resume_threshold := t |}.

(** Modelled from the spec: the Flow Controller State and the Outstanding
    Messages, which live in the subscriber package and not in this file.
    "Current outstanding byte count and message count ..., and a boolean
    paused flag"; an outstanding message is its ack id and received byte
    size (deadline and delivery attempt play no part in admission). *)
Record state := {
  bytes : Z;
  count : Z;
  paused : bool;
  outstanding : list (string * N)
}.

(** Modelled from the spec: "initial state RESUMED", nothing outstanding. *)
Definition initial : state :=
  {| bytes := 0; count := 0; paused := false; outstanding := [] |}.

(** Modelled from the spec: the transport delivers a message, a message is
    released (ack, nack or expiry), the transport disconnects. *)
Inductive event :=
| Deliver (ack_id : string) (size : N)
| Release (ack_id : string)
| Disconnect.

(** Modelled from the spec: the hard ceiling, "admission of a new message
    is refused/paused, never silently exceeded". *)
Definition fits (cfg : settings) (s : state) (size : N) : bool :=
  (bytes s + Z.of_N size <=? max_bytes cfg)%Z
  && (count s + 1 <=? max_messages cfg)%Z.

(** Modelled from the spec: "either counter has reached its hard
    maximum". *)
Definition at_maximum (cfg : settings) (s : state) : bool :=
  (max_bytes cfg <=? bytes s)%Z || (max_messages cfg <=? count s)%Z.

(** Modelled from the spec: "both counters have fallen to or below their
    resume thresholds (resume_threshold * max_bytes, resume_threshold *
    max_messages)". *)
Definition under_thresholds (cfg : settings) (s : state) : bool :=
  Qle_bool (inject_Z (bytes s)) (resume_threshold cfg * inject_Z (max_bytes cfg))
  && Qle_bool (inject_Z (count s)) (resume_threshold cfg * inject_Z (max_messages cfg)).

(** Take the first outstanding message with this ack id out of the
    registry. *)
Fixpoint take (ack_id : string) (l : list (string * N))
    : option (N * list (string * N)) :=
  match l with
  | [] => None
  | (k, size) :: l' =>
      if decide (k = ack_id) then Some (size, l')
      else '(sz, rest) ← take ack_id l'; Some (sz, (k, size) :: rest)
  end.

Definition set_paused (p : bool) (s : state) : state :=
  {| bytes := bytes s; count := count s; paused := p;
     outstanding := outstanding s |}.

(** Modelled from the spec: the receiver's algorithm (section 4.2).  "The
    Receiver continuously pulls from the transport while not paused.  On
    admitting a message, it increments both counters and registers an
    Outstanding Message ...  If, after admission, either counter has
    reached its hard maximum, the Receiver transitions to PAUSED ...  On
    any release (ack/nack/expiry) the counters decrement; if paused and
    both counters have fallen to or below their resume thresholds ..., the
    Receiver transitions back to RESUMED."  A message that does not fit is
    not admitted and the receiver pauses (the hard ceiling of the
    contract).  A release of a message that is not outstanding changes
    nothing (capacity is released exactly once).  On disconnect "local
    state ... is cleared" and the receiver resumes "from RESUMED with
    counters reset". *)
Definition step (cfg : settings) (s : state) (e : event) : state :=
  match e with
  | Deliver ack_id size =>
      if paused s then s
      else if fits cfg s size then
        let s' := {| bytes := bytes s + Z.of_N size;
                     count := count s + 1;
                     paused := false;
                     outstanding := outstanding s ++ [(ack_id, size)] |} in
        if at_maximum cfg s' then set_paused true s' else s'
      else set_paused true s
  | Release ack_id =>
      match take ack_id (outstanding s) with
      | None => s
      | Some (size, rest) =>
          let s' := {| bytes := bytes s - Z.of_N size;
                       count := count s - 1;
                       paused := paused s;
                       outstanding := rest |} in
          if paused s && under_thresholds cfg s' then set_paused false s' else s'
      end
  | Disconnect => initial
  end.

Definition run (cfg : settings) (s : state) (es : list event) : state :=
  fold_left (step cfg) es s.




End Receiver.

(** ** The spec's validity conditions *)

(** A strictly positive number. *)
Definition is_positive (v : pyval) : bool :=
  match as_Q v with
  | Some q => negb (Qle_bool q 0)
  | None => false
  end.

(** A fraction in (0, 1]. *)
Definition is_fraction (v : pyval) : bool :=
  match as_Q v with
  | Some q => negb (Qle_bool q 0) && Qle_bool q 1
  | None => false
  end.

(** "Invalid threshold": a non-positive size, count or duration. *)
Definition invalid_batch_settings (items : list pyval) : bool :=
  negb (forallb is_positive items).

(** "Invalid threshold": [resume_threshold] (position 2) outside (0, 1], or
    a non-positive size, count or duration. *)
Definition invalid_flow_control (items : list pyval) : bool :=
  negb (forallb is_positive items
        && match items !! 2%nat with Some t => is_fraction t | None => false end).

(* ===================================================================== *)
(** * Part II. Properties                                                 *)
(* ===================================================================== *)

(** ** Float literals *)

Lemma decimal_0_05 : decimal 5 2 = S754_finite false 7205759403792794 (-57).
Proof. vm_compute. reflexivity. Qed.

Lemma decimal_0_8 : decimal 8 1 = S754_finite false 7205759403792794 (-53).
Proof. vm_compute. reflexivity. Qed.

Lemma decimal_0_01 : decimal 1 2 = S754_finite false 5764607523034235 (-59).
Proof. vm_compute. reflexivity. Qed.

(** The three float defaults are the doubles nearest to 0.05, 0.8 and
    0.01. *)
Lemma float_defaults_nearest :
  nearest_double (decimal 5 2) (5 # 100) ∧
  nearest_double (decimal 8 1) (8 # 10) ∧
  nearest_double (decimal 1 2) (1 # 100).
Proof.
  unfold nearest_double.
  rewrite decimal_0_05, decimal_0_8, decimal_0_01.
  repeat split; try (vm_compute; reflexivity);
    eexists; (split; [vm_compute; reflexivity|]); vm_compute; discriminate.
Qed.

(** ** Construction *)

Lemma is_ok_collect {A} (rs : list (result A)) :
  is_ok (collect rs) = forallb is_ok rs.
Proof.
  induction rs as [|r rs IH]; [reflexivity|].
  destruct r as [a|e]; cbn; [|reflexivity].
  rewrite <- IH. now destruct (collect rs).
Qed.

Lemma forallb_imap_ext {A B} (p : B → bool) (f g : nat → A → B) (l : list A) :
  (∀ i x, p (f i x) = p (g i x)) →
  forallb p (imap f l) = forallb p (imap g l).
Proof.
  revert f g. induction l as [|x l IH]; intros f g Hfg; [reflexivity|].
  cbn. rewrite Hfg. f_equal. apply IH. intros i y. apply Hfg.
Qed.

Lemma lookup_shape {A} (l l' : list A) (i : nat) :
  length l = length l' → is_Some (l !! i) ↔ is_Some (l' !! i).
Proof. intros Hlen. rewrite !lookup_lt_is_Some. lia. Qed.

Lemma kwargs_shape (kw kw' : gmap string pyval) (k : string) :
  dom kw = dom kw' → is_Some (kw !! k) ↔ is_Some (kw' !! k).
Proof. intros Hdom. rewrite <- !elem_of_dom, Hdom. reflexivity. Qed.

Lemma known_keywords_shape (P : string → Prop) (kw kw' : gmap string pyval) :
  dom kw = dom kw' →
  map_Forall (λ k _, P k) kw → map_Forall (λ k _, P k) kw'.
Proof.
  intros Hdom H k v Hk.
  assert (is_Some (kw !! k)) as [w Hw] by (apply (kwargs_shape kw kw'); eauto).
  exact (H k w Hw).
Qed.

(** Whether a parameter binds depends on which arguments are present, not
    on what they are. *)
Lemma bind_param_shape cls args args' (kw kw' : gmap string pyval) i name :
  length args = length args' → dom kw = dom kw' →
  is_ok (bind_param cls args kw i name) = is_ok (bind_param cls args' kw' i name).
Proof.
  intros Hlen Hdom. unfold bind_param.
  pose proof (lookup_shape args args' i Hlen) as Ha.
  pose proof (kwargs_shape kw kw' name Hdom) as Hk.
  destruct (args !! i) as [a|], (args' !! i) as [a'|];
    try (exfalso;
         first [ destruct (proj1 Ha ltac:(eauto)) as [? ?]
               | destruct (proj2 Ha ltac:(eauto)) as [? ?] ]; discriminate);
  destruct (kw !! name) as [b|], (kw' !! name) as [b'|];
    try reflexivity;
    exfalso;
    first [ destruct (proj1 Hk ltac:(eauto)) as [? ?]
          | destruct (proj2 Hk ltac:(eauto)) as [? ?] ]; discriminate.
Qed.

(** Whether a construction raises depends only on the shape of the call:
    the number of positional arguments and the set of keywords. *)
Lemma nt_new_shape cls args args' (kw kw' : gmap string pyval) :
  length args = length args' → dom kw = dom kw' →
  is_ok (nt_new cls args kw) = is_ok (nt_new cls args' kw').
Proof.
  intros Hlen Hdom. unfold nt_new. rewrite <- Hlen.
  destruct (decide (length (_fields cls) < length args)%nat); [reflexivity|].
  destruct (decide (map_Forall _ kw)) as [Hkw|Hkw],
           (decide (map_Forall _ kw')) as [Hkw'|Hkw'].
  - transitivity (is_ok (collect (imap (bind_param cls args kw) (_fields cls)))).
    { now destruct (collect _). }
    transitivity (is_ok (collect (imap (bind_param cls args' kw') (_fields cls)))).
    2: { now destruct (collect _). }
    rewrite !is_ok_collect. apply forallb_imap_ext.
    intros i x. now apply bind_param_shape.
  - destruct Hkw'. now apply (known_keywords_shape _ kw kw').
  - destruct Hkw. now apply (known_keywords_shape _ kw' kw).
  - reflexivity.
Qed.

Lemma collect_imap_lookup {A B} (f : nat → A → result B) (l : list A) (l' : list B) :
  length l = length l' →
  (∀ i x, l !! i = Some x → ∃ v, l' !! i = Some v ∧ f i x = Ok v) →
  collect (imap f l) = Ok l'.
Proof.
  revert f l'. induction l as [|x l IH]; intros f l' Hlen Hf.
  - destruct l'; [reflexivity|discriminate].
  - destruct l' as [|y l']; [discriminate|].
    destruct (Hf 0%nat x eq_refl) as (v & Hv & Hfx).
    injection Hv as <-. cbn. rewrite Hfx. cbn.
    rewrite (IH (f ∘ S) l'); [reflexivity| cbn in Hlen; lia |].
    intros i z Hz. apply (Hf (S i) z Hz).
Qed.

(** A call that gives every field positionally returns the tuple of the
    arguments, whatever they are. *)
Lemma nt_new_positional cls args :
  length args = length (_fields cls) →
  nt_new cls args ∅ = Ok {| ob_type := cls; ob_items := args |}.
Proof.
  intros Hlen. unfold nt_new.
  destruct (decide (length (_fields cls) < length args)%nat); [lia|].
  destruct (decide (map_Forall _ _)) as [_|Hkw].
  2: { destruct Hkw. apply map_Forall_empty. }
  rewrite (collect_imap_lookup _ _ args); [reflexivity|lia|].
  intros i x Hx.
  destruct (lookup_lt_is_Some_2 args i) as [v Hv].
  { rewrite Hlen. eapply lookup_lt_Some, Hx. }
  exists v. split; [exact Hv|].
  unfold bind_param. rewrite Hv, lookup_empty. reflexivity.
Qed.

(** A call whose keywords all name fields, for a class with a default for
    every field, returns the defaults with the named fields replaced by the
    given values, whatever they are. *)
Lemma nt_new_keywords cls (kw : gmap string pyval) :
  length (__defaults__ cls) = length (_fields cls) →
  map_Forall (λ k _, k ∈ _fields cls) kw →
  nt_new cls [] kw
  = Ok {| ob_type := cls;
          ob_items := zip_with (λ name d, default d (kw !! name))
                               (_fields cls) (__defaults__ cls) |}.
Proof.
  intros Hlen Hkw. unfold nt_new.
  destruct (decide (length (_fields cls) < length [])%nat) as [Hlt|_];
    [cbn in Hlt; lia|].
  destruct (decide (map_Forall _ kw)) as [_|Hno]; [|now destruct Hno].
  rewrite (collect_imap_lookup _ _
             (zip_with (λ name d, default d (kw !! name))
                       (_fields cls) (__defaults__ cls))); [reflexivity| |].
  - rewrite length_zip_with. lia.
  - intros i name Hname.
    destruct (lookup_lt_is_Some_2 (__defaults__ cls) i) as [d Hd].
    { rewrite Hlen. eapply lookup_lt_Some, Hname. }
    exists (default d (kw !! name)). split.
    + rewrite lookup_zip_with, Hname. cbn. rewrite Hd. reflexivity.
    + unfold bind_param. rewrite lookup_nil.
      destruct (kw !! name); [reflexivity|].
      unfold default_for. rewrite Hlen, Nat.sub_diag.
      destruct (decide (0 ≤ i)%nat); [|lia].
      rewrite Nat.sub_0_r, Hd. reflexivity.
Qed.

(** C1 as stated fails: [BatchSettings(max_bytes=-1)] and
    [FlowControl(resume_threshold=1.5)] are invalid by the spec's conditions,
    and both constructions return a record instead of raising. *)
Lemma invalid_settings_are_constructed :
  (∃ r, nt_new BatchSettings [] {[ "max_bytes" := PInt (-1) ]} = Ok r ∧
        invalid_batch_settings (ob_items r) = true ∧
        ¬ ∃ e, nt_new BatchSettings [] {[ "max_bytes" := PInt (-1) ]} = Raise e) ∧
  (∃ r, nt_new FlowControl [] {[ "resume_threshold" := PFloat (decimal 15 1) ]} = Ok r ∧
        invalid_flow_control (ob_items r) = true ∧
        ¬ ∃ e, nt_new FlowControl [] {[ "resume_threshold" := PFloat (decimal 15 1) ]} = Raise e).
Proof.
  split; eexists; (split; [vm_compute; reflexivity|]);
    (split; [vm_compute; reflexivity|]); intros [e He]; vm_compute in He; discriminate.
Qed.

(** C1, amended: construction validates nothing.  Whether a call of
    [BatchSettings] or [FlowControl] (of any namedtuple class) raises depends
    only on how many positional arguments and which keywords it has, never on
    the values; a call giving every field positionally returns the record
    holding exactly those values, and a call of one of the two classes with
    keywords that name fields returns the defaults with those fields
    replaced, valid or not. *)
Theorem construction_validates_nothing
    (cls : nt_class) (args args' : list pyval) (kw kw' : gmap string pyval) :
  length args = length args' → dom kw = dom kw' →
  is_ok (nt_new cls args kw) = is_ok (nt_new cls args' kw') ∧
  (length args = length (_fields cls) →
   nt_new cls args ∅ = Ok {| ob_type := cls; ob_items := args |}) ∧
  (cls = BatchSettings ∨ cls = FlowControl →
   map_Forall (λ k _, k ∈ _fields cls) kw →
   nt_new cls [] kw
   = Ok {| ob_type := cls;
           ob_items := zip_with (λ name d, default d (kw !! name))
                                (_fields cls) (__defaults__ cls) |}).
Proof.
  intros Hlen Hdom. split; [|split].
  - now apply nt_new_shape.
  - apply nt_new_positional.
  - intros Hcls. apply nt_new_keywords. destruct Hcls as [-> | ->]; reflexivity.
Qed.

Lemma construction_validates_nothing_witness :
  (is_ok (nt_new FlowControl [PInt 0; PInt (-3); PFloat (decimal 15 1)]
                 {[ "max_lease_duration" := PInt (-7200) ]})
   = is_ok (nt_new FlowControl [PInt 1; PInt 1; PFloat (decimal 8 1)]
                   {[ "max_lease_duration" := PInt 7200 ]})) ∧
  nt_new BatchSettings [PInt (-1); PInt 0; PInt 0] ∅
  = Ok {| ob_type := BatchSettings; ob_items := [PInt (-1); PInt 0; PInt 0] |}.
Proof.
  split.
  - apply (construction_validates_nothing FlowControl
             [PInt 0; PInt (-3); PFloat (decimal 15 1)]
             [PInt 1; PInt 1; PFloat (decimal 8 1)]
             {[ "max_lease_duration" := PInt (-7200) ]}
             {[ "max_lease_duration" := PInt 7200 ]}).
    + reflexivity.
    + rewrite !dom_singleton_L. reflexivity.
  - apply (proj1 (proj2 (construction_validates_nothing BatchSettings
             [PInt (-1); PInt 0; PInt 0] [PInt (-1); PInt 0; PInt 0] ∅ ∅
             eq_refl eq_refl))).
    reflexivity.
Defined.

(** C2: [BatchSettings()] has exactly the defaults [max_bytes = 10000000],
    [max_latency = 0.05] (the double nearest to it) and
    [max_messages = 1000]. *)
Theorem BatchSettings_defaults :
  ∃ r, nt_new BatchSettings [] ∅ = Ok r ∧
       ob_items r = [PInt 10000000; PFloat (decimal 5 2); PInt 1000] ∧
       nt_getattr r "max_bytes" = Ok (PInt 10000000) ∧
       nt_getattr r "max_latency" = Ok (PFloat (decimal 5 2)) ∧
       nt_getattr r "max_messages" = Ok (PInt 1000) ∧
       nearest_double (decimal 5 2) (5 # 100).
Proof.
  eexists. do 5 (split; [vm_compute; reflexivity|]).
  exact (proj1 float_defaults_nearest).
Qed.

(** C3: [FlowControl()] has exactly the defaults [max_bytes = 104857600]
    (100 MiB), [max_messages = 100], [resume_threshold = 0.8],
    [max_requests = 100], [max_request_batch_size = 100],
    [max_request_batch_latency = 0.01] and [max_lease_duration = 7200]. *)
Theorem FlowControl_defaults :
  ∃ r, nt_new FlowControl [] ∅ = Ok r ∧
       ob_items r = [PInt 104857600; PInt 100; PFloat (decimal 8 1); PInt 100;
                     PInt 100; PFloat (decimal 1 2); PInt 7200] ∧
       104857600%Z = (100 * 2 ^ 20)%Z ∧
       nt_getattr r "max_bytes" = Ok (PInt 104857600) ∧
       nt_getattr r "max_messages" = Ok (PInt 100) ∧
       nt_getattr r "resume_threshold" = Ok (PFloat (decimal 8 1)) ∧
       nt_getattr r "max_requests" = Ok (PInt 100) ∧
       nt_getattr r "max_request_batch_size" = Ok (PInt 100) ∧
       nt_getattr r "max_request_batch_latency" = Ok (PFloat (decimal 1 2)) ∧
       nt_getattr r "max_lease_duration" = Ok (PInt 7200) ∧
       nearest_double (decimal 8 1) (8 # 10) ∧
       nearest_double (decimal 1 2) (1 # 100).
Proof.
  eexists. do 10 (split; [vm_compute; reflexivity|]).
  exact (proj2 float_defaults_nearest).
Qed.



(** ** Tuple semantics *)

Lemma collect_length {A} (rs : list (result A)) (l : list A) :
  collect rs = Ok l → length l = length rs.
Proof.
  revert l. induction rs as [|r rs IH]; intros l H.
  - injection H as <-. reflexivity.
  - destruct r as [a|e]; [|discriminate]. cbn in H.
    destruct (collect rs) as [l0|e]; [|discriminate].
    injection H as <-. cbn. f_equal. now apply IH.
Qed.

(** A constructed record is a tuple of its class with one item per field. *)
Lemma nt_new_inv cls args (kw : gmap string pyval) r :
  nt_new cls args kw = Ok r →
  ob_type r = cls ∧ length (ob_items r) = length (_fields cls).
Proof.
  unfold nt_new. intros H.
  destruct (decide (length (_fields cls) < length args)%nat); [discriminate|].
  destruct (decide (map_Forall _ _)); [|discriminate].
  destruct (collect _) as [items|e] eqn:Hc; [|discriminate].
  injection H as <-. split; [reflexivity|].
  cbn. rewrite (collect_length _ _ Hc). apply length_imap.
Qed.

(** Reads one field of both records out of the fieldwise-equality
    hypothesis [H]. *)
Ltac field_eq H name :=
  let v := fresh "v" in
  let v' := fresh "v'" in
  let Hv := fresh "Hv" in
  let Hv' := fresh "Hv'" in
  let E := fresh "E" in
  destruct (H name) as (v & v' & Hv & Hv' & E);
  [ cbn; repeat first [apply list_elem_of_here | apply list_elem_of_further]
  | vm_compute in Hv; vm_compute in Hv';
    injection Hv as <-; injection Hv' as <-; rewrite E; clear E ].

(** C10: the records are tuples with a fixed positional order:
    [BatchSettings(a, b, c)] is the tuple [(a, b, c)] read as [max_bytes],
    [max_latency], [max_messages], [FlowControl] likewise with its seven
    fields, and two records of one class whose fields are pairwise [==]
    compare equal. *)
Theorem settings_are_value_tuples :
  (∀ a b c, ∃ r,
      nt_new BatchSettings [a; b; c] ∅ = Ok r ∧
      ob_items r = [a; b; c] ∧
      nt_getattr r "max_bytes" = Ok a ∧
      nt_getattr r "max_latency" = Ok b ∧
      nt_getattr r "max_messages" = Ok c) ∧
  (∀ a b c d e f g, ∃ r,
      nt_new FlowControl [a; b; c; d; e; f; g] ∅ = Ok r ∧
      ob_items r = [a; b; c; d; e; f; g] ∧
      nt_getattr r "max_bytes" = Ok a ∧
      nt_getattr r "max_messages" = Ok b ∧
      nt_getattr r "resume_threshold" = Ok c ∧
      nt_getattr r "max_requests" = Ok d ∧
      nt_getattr r "max_request_batch_size" = Ok e ∧
      nt_getattr r "max_request_batch_latency" = Ok f ∧
      nt_getattr r "max_lease_duration" = Ok g) ∧
  (∀ cls args args' (kw kw' : gmap string pyval) r r',
      cls = BatchSettings ∨ cls = FlowControl →
      nt_new cls args kw = Ok r →
      nt_new cls args' kw' = Ok r' →
      (∀ name, name ∈ _fields cls →
               ∃ v v', nt_getattr r name = Ok v ∧ nt_getattr r' name = Ok v' ∧
                       py_eq v v' = true) →
      nt_eq r r' = true).
Proof.
  split; [|split].
  - intros a b c. eexists. do 4 (split; [vm_compute; reflexivity|]).
    vm_compute; reflexivity.
  - intros a b c d e f g. eexists. do 8 (split; [vm_compute; reflexivity|]).
    vm_compute; reflexivity.
  - intros cls args args' kw kw' r r' Hcls Hr Hr' H.
    apply nt_new_inv in Hr as [Ht Hl], Hr' as [Ht' Hl'].
    destruct r as [t items], r' as [t' items']; cbn in *. subst t t'.
    unfold nt_eq; cbn.
    destruct Hcls as [-> | ->]; cbn in Hl, Hl'.
    + destruct items as [|x1 [|x2 [|x3 [|]]]]; try discriminate Hl.
      destruct items' as [|y1 [|y2 [|y3 [|]]]]; try discriminate Hl'.
      cbn. field_eq H "max_bytes". field_eq H "max_latency".
      field_eq H "max_messages". reflexivity.
    + destruct items as [|x1 [|x2 [|x3 [|x4 [|x5 [|x6 [|x7 [|]]]]]]]];
        try discriminate Hl.
      destruct items' as [|y1 [|y2 [|y3 [|y4 [|y5 [|y6 [|y7 [|]]]]]]]];
        try discriminate Hl'.
      cbn. field_eq H "max_bytes". field_eq H "max_messages".
      field_eq H "resume_threshold". field_eq H "max_requests".
      field_eq H "max_request_batch_size".
      field_eq H "max_request_batch_latency".
      field_eq H "max_lease_duration". reflexivity.
Qed.

Lemma settings_are_value_tuples_witness :
  nt_eq {| ob_type := BatchSettings;
           ob_items := [PInt 300; PInt 60; PInt 1000] |}
        {| ob_type := BatchSettings;
           ob_items := [PFloat (float_of_Z 300); PFloat (float_of_Z 60); PInt 1000] |}
  = true.
Proof.
  apply (proj2 (proj2 settings_are_value_tuples) BatchSettings
           [PInt 300] [PFloat (float_of_Z 300); PFloat (float_of_Z 60); PInt 1000]
           {[ "max_latency" := PInt 60 ]} ∅).
  - left. reflexivity.
  - vm_compute. reflexivity.
  - vm_compute. reflexivity.
  - intros name Hin. cbn in Hin.
    repeat (apply elem_of_cons in Hin as [-> | Hin];
            [eexists; eexists; repeat split; vm_compute; reflexivity|]).
    inversion Hin.
Defined.

(** ** Immutability *)

Lemma alloc_preserves (σ : store) (res : result nt_obj) (a : addr) (r : nt_obj) :
  σ !! a = Some r → (alloc σ res).1 !! a = Some r.
Proof.
  intros Ha. destruct res as [o|e]; unfold alloc; simpl; [|exact Ha].
  rewrite lookup_app_l; [exact Ha|]. eapply lookup_lt_Some, Ha.
Qed.

(** No operation changes an object that is already in the store:
    constructions only append, reads leave the store alone, and every write
    raises before it changes anything. *)
Lemma do_op_preserves (σ : store) (o : op) (a : addr) (r : nt_obj) :
  σ !! a = Some r → (do_op σ o).1 !! a = Some r.
Proof.
  intros Ha. destruct o as [cls args kw|cls it|b kw|b n|b i|b n v|b n|b i v]; cbn.
  1, 2: now apply alloc_preserves.
  all: destruct (σ !! b); cbn; try exact Ha.
  now apply alloc_preserves.
Qed.

Lemma exec_preserves (ops : list op) (σ : store) (a : addr) (r : nt_obj) :
  σ !! a = Some r → exec σ ops !! a = Some r.
Proof.
  revert σ. induction ops as [|o ops IH]; intros σ Ha; [exact Ha|].
  cbn. apply IH. now apply do_op_preserves.
Qed.

(** A construction that succeeds binds its reference to the new record. *)
Lemma new_allocates (σ σ' : store) cls args (kw : gmap string pyval) (a : addr) :
  do_op σ (New cls args kw) = (σ', Ref a) →
  ∃ r, nt_new cls args kw = Ok r ∧ σ' !! a = Some r.
Proof.
  cbn. destruct (nt_new cls args kw) as [r|e]; cbn; [|discriminate].
  intros [= <- <-]. exists r. split; [reflexivity|].
  rewrite lookup_app_r, Nat.sub_diag; [reflexivity|lia].
Qed.

(** C5: records are immutable.  For a record constructed by [cls(...)] and
    any operations run afterwards (constructions, reads, and attempts to
    assign or delete attributes or items, which all raise), the record is
    still the constructed one, and reading any of its fields or items
    yields the value it had at construction. *)
Theorem records_are_immutable
    (σ σ' : store) cls args (kw : gmap string pyval) (a : addr) (ops : list op) :
  do_op σ (New cls args kw) = (σ', Ref a) →
  ∃ r, nt_new cls args kw = Ok r ∧
       exec σ' ops !! a = Some r ∧
       (∀ name, (do_op (exec σ' ops) (GetAttr a name)).2 = read (nt_getattr r name)) ∧
       (∀ i, (do_op (exec σ' ops) (GetItem a i)).2 = read (nt_getitem r i)) ∧
       (∀ name v, (do_op (exec σ' ops) (SetAttr a name v))
                  = (exec σ' ops, Exc AttributeError)).
Proof.
  intros Hnew. apply new_allocates in Hnew as (r & Hr & Ha).
  exists r. split; [exact Hr|].
  pose proof (exec_preserves ops σ' a r Ha) as Hlater.
  split; [exact Hlater|].
  repeat split; intros; cbn; rewrite Hlater; reflexivity.
Qed.

Lemma records_are_immutable_witness :
  let r0 := {| ob_type := BatchSettings;
               ob_items := [PInt 300; PFloat (decimal 5 2); PInt 1000] |} in
  let ops := [SetAttr 0 "max_bytes" (PInt 1); SetItem 0 0 (PInt 2);
              DelAttr 0 "max_latency"; Replace 0 {[ "max_bytes" := PInt 3 ]};
              New FlowControl [] ∅] in
  ∃ r, nt_new BatchSettings [] {[ "max_bytes" := PInt 300 ]} = Ok r ∧
       exec [r0] ops !! 0%nat = Some r ∧
       (∀ name, (do_op (exec [r0] ops) (GetAttr 0 name)).2 = read (nt_getattr r name)) ∧
       (∀ i, (do_op (exec [r0] ops) (GetItem 0 i)).2 = read (nt_getitem r i)) ∧
       (∀ name v, (do_op (exec [r0] ops) (SetAttr 0 name v))
                  = (exec [r0] ops, Exc AttributeError)).
Proof.
  intros r0 ops.
  apply (records_are_immutable [] [r0] BatchSettings [] {[ "max_bytes" := PInt 300 ]} 0 ops).
  vm_compute. reflexivity.
Defined.

(** ** The export list *)

#[global] Instance str_le_total : Total str_le.
Proof. intros a b. apply String.leb_total. Qed.

#[global] Instance str_le_trans : Transitive str_le.
Proof.
  unfold str_le, String.leb. intros a.
  induction a as [|x a IH]; intros b c Hab Hbc.
  - destruct c; reflexivity.
  - destruct b as [|y b]; [discriminate Hab|].
    destruct c as [|z c]; [discriminate Hbc|].
    simpl in *. unfold Ascii.compare in *.
    destruct (N.compare_spec (N_of_ascii x) (N_of_ascii y));
      destruct (N.compare_spec (N_of_ascii y) (N_of_ascii z));
      destruct (N.compare_spec (N_of_ascii x) (N_of_ascii z));
      try discriminate; try reflexivity; try lia.
    now apply (IH b c).
Qed.

Section Exports.
Context {message : Type}.
Variable set_module : message → message.
Variable get_messages : pb_module → list (string * message).

(** One module adds the names of its messages, in order. *)
Lemma names_export_module retag (st : module_state message) (module : pb_module) :
  names (export_module retag get_messages st module)
  = names st ++ (get_messages module).*1.
Proof.
  unfold export_module. revert st.
  induction (get_messages module) as [|item items IH]; intros st; cbn.
  - now rewrite app_nil_r.
  - rewrite IH. cbn. now rewrite <- app_assoc.
Qed.

Lemma names_export_modules retag (modules : list pb_module) (st : module_state message) :
  names (fold_left (export_module retag get_messages) modules st)
  = names st ++ (modules ≫= λ m, (get_messages m).*1).
Proof.
  revert st. induction modules as [|m modules IH]; intros st; cbn.
  - now rewrite app_nil_r.
  - rewrite IH, names_export_module. now rewrite <- app_assoc.
Qed.

(** [names] when the loops are done. *)
Lemma names_exported :
  names (exported set_module get_messages)
  = ["BatchSettings"; "FlowControl"]
    ++ ((_shared_modules ++ _local_modules) ≫= λ m, (get_messages m).*1).
Proof.
  unfold exported. rewrite !names_export_modules. cbn [names].
  rewrite bind_app, <- app_assoc. reflexivity.
Qed.

(** The names a module adds are exactly the attributes it sets. *)
Lemma attrs_export_module retag (st : module_state message) (module : pb_module) x :
  is_Some (attrs (export_module retag get_messages st module) !! x) ↔
  is_Some (attrs st !! x) ∨ x ∈ (get_messages module).*1.
Proof.
  unfold export_module. revert st.
  induction (get_messages module) as [|item items IH]; intros st; cbn.
  - rewrite elem_of_nil. tauto.
  - rewrite IH. cbn. rewrite lookup_insert_is_Some, elem_of_cons.
    destruct (decide (item.1 = x)); intuition congruence.
Qed.

Lemma attrs_export_modules retag (modules : list pb_module)
    (st : module_state message) x :
  is_Some (attrs (fold_left (export_module retag get_messages) modules st) !! x) ↔
  is_Some (attrs st !! x) ∨ x ∈ modules ≫= λ m, (get_messages m).*1.
Proof.
  revert st. induction modules as [|m modules IH]; intros st; cbn.
  - rewrite elem_of_nil. tauto.
  - rewrite IH, attrs_export_module, elem_of_app. tauto.
Qed.

(** Every name of [names] after the first two is bound in the module. *)
Lemma exported_names_are_bound x :
  x ∈ names (exported set_module get_messages) ↔
  x = "BatchSettings" ∨ x = "FlowControl" ∨
  is_Some (attrs (exported set_module get_messages) !! x).
Proof.
  rewrite names_exported. unfold exported.
  rewrite !attrs_export_modules. cbn [attrs].
  rewrite lookup_empty, is_Some_alt.
  rewrite elem_of_app, !elem_of_cons, elem_of_nil, bind_app, elem_of_app.
  tauto.
Qed.

(** C9: [__all__] is sorted and holds ["BatchSettings"], ["FlowControl"]
    and the name of every message of the shared modules and of [pubsub_pb2],
    and nothing else. *)
Theorem all_is_the_sorted_names :
  StronglySorted str_le (__all__ set_module get_messages) ∧
  __all__ set_module get_messages
    ≡ₚ ["BatchSettings"; "FlowControl"]
       ++ ((_shared_modules ++ _local_modules) ≫= λ m, (get_messages m).*1) ∧
  ∀ x, x ∈ __all__ set_module get_messages ↔
       x = "BatchSettings" ∨ x = "FlowControl" ∨
       ∃ m msg, m ∈ _shared_modules ++ _local_modules ∧ (x, msg) ∈ get_messages m.
Proof.
  assert (__all__ set_module get_messages
            ≡ₚ ["BatchSettings"; "FlowControl"]
               ++ ((_shared_modules ++ _local_modules) ≫= λ m, (get_messages m).*1))
    as Hperm.
  { unfold __all__. rewrite merge_sort_Permutation. now rewrite names_exported. }
  split; [apply StronglySorted_merge_sort; apply _|].
  split; [exact Hperm|].
  intros x. rewrite Hperm.
  rewrite elem_of_app, !elem_of_cons, elem_of_nil, list_elem_of_bind.
  split.
  - intros [[-> | [-> | []]] | (m & Hx & Hm)]; [now left | now right; left |].
    right; right. apply list_elem_of_fmap in Hx as ([x' msg] & -> & Hx).
    exists m, msg. split; [exact Hm | exact Hx].
  - intros [-> | [-> | (m & msg & Hm & Hx)]];
      [now left; left | now left; right; left |].
    right. exists m. split; [|exact Hm].
    apply list_elem_of_fmap. exists (x, msg). split; [reflexivity | exact Hx].
Qed.

End Exports.

(** ** The flow-controlled receiver *)

Section ReceiverProperties.
Import Receiver.
Variable cfg : settings.









Lemma under_thresholds_iff s :
  under_thresholds cfg s = true ↔
  (inject_Z (bytes s) <= resume_threshold cfg * inject_Z (max_bytes cfg))%Q ∧
  (inject_Z (count s) <= resume_threshold cfg * inject_Z (max_messages cfg))%Q.
Proof.
  unfold under_thresholds. rewrite andb_true_iff, !Qle_bool_iff. reflexivity.
Qed.

(** C8: a paused receiver resumes only in a state where both counters are
    at or below their resume thresholds; while either counter is above its
    threshold it stays paused. *)
Theorem resume_needs_both_thresholds (s : state) (e : event) :
  (0 ≤ max_bytes cfg)%Z → (0 ≤ max_messages cfg)%Z →
  (0 <= resume_threshold cfg)%Q →
  paused s = true →
  (paused (step cfg s e) = false →
   (inject_Z (bytes (step cfg s e))
      <= resume_threshold cfg * inject_Z (max_bytes cfg))%Q ∧
   (inject_Z (count (step cfg s e))
      <= resume_threshold cfg * inject_Z (max_messages cfg))%Q) ∧
  (¬ ((inject_Z (bytes (step cfg s e))
         <= resume_threshold cfg * inject_Z (max_bytes cfg))%Q ∧
      (inject_Z (count (step cfg s e))
         <= resume_threshold cfg * inject_Z (max_messages cfg))%Q) →
   paused (step cfg s e) = true).
Proof.
  intros Hmb Hmm Hrt Hp.
  assert (paused (step cfg s e) = false →
          under_thresholds cfg (step cfg s e) = true) as Hresume.
  { intros Hresumed. destruct e as [ack_id size|ack_id|]; cbn in *.
    - rewrite Hp in *. congruence.
    - rewrite Hp in *.
      destruct (take ack_id (outstanding s)) as [[size rest]|]; [|congruence].
      cbn in *.
      match goal with |- context [if ?c then _ else _] => destruct c eqn:Hu end;
        cbn in *; [exact Hu | congruence].
    - apply under_thresholds_iff. cbn.
      assert (0 <= inject_Z (max_bytes cfg))%Q
        by (rewrite <- (Zle_Qle 0); exact Hmb).
      assert (0 <= inject_Z (max_messages cfg))%Q
        by (rewrite <- (Zle_Qle 0); exact Hmm).
      split; apply Qmult_le_0_compat; assumption. }
  split.
  - intros Hresumed. apply under_thresholds_iff, Hresume, Hresumed.
  - intros Hnot. destruct (paused (step cfg s e)) eqn:Hp'; [reflexivity|].
    destruct Hnot. apply under_thresholds_iff, Hresume. reflexivity.
Qed.

End ReceiverProperties.


Lemma resume_needs_both_thresholds_witness :
  let cfg := {| Receiver.max_bytes := 100; Receiver.max_messages := 2;
                Receiver.resume_threshold := 8 # 10 |} in
  let s := {| Receiver.bytes := 90; Receiver.count := 2; Receiver.paused := true;
              Receiver.outstanding := [("a", 5%N); ("b", 85%N)] |} in
  let e := Receiver.Release "a" in
  (Receiver.paused (Receiver.step cfg s e) = false →
   (inject_Z (Receiver.bytes (Receiver.step cfg s e)) <= (8 # 10) * inject_Z 100)%Q ∧
   (inject_Z (Receiver.count (Receiver.step cfg s e)) <= (8 # 10) * inject_Z 2)%Q) ∧
  (¬ ((inject_Z (Receiver.bytes (Receiver.step cfg s e)) <= (8 # 10) * inject_Z 100)%Q ∧
      (inject_Z (Receiver.count (Receiver.step cfg s e)) <= (8 # 10) * inject_Z 2)%Q) →
   Receiver.paused (Receiver.step cfg s e) = true).
Proof.
  intros cfg s e. apply (resume_needs_both_thresholds cfg s e).
  - cbn. lia.
  - cbn. lia.
  - cbn. discriminate.
  - reflexivity.
Defined.

(** The spec's scenario: [FlowControl(max_messages=10, resume_threshold=0.8)];
    ten admissions pause the receiver, one release (9 outstanding) leaves it
    paused, two more (7 outstanding) resume it. *)
Example receiver_scenario :
  ∃ r cfg,
    nt_new FlowControl []
      {[ "max_messages" := PInt 10; "resume_threshold" := PFloat (decimal 8 1) ]} = Ok r ∧
    Receiver.of_record r = Some cfg ∧
    let ten := (λ k, Receiver.Deliver k 1000) <$>
                 ["m0"; "m1"; "m2"; "m3"; "m4"; "m5"; "m6"; "m7"; "m8"; "m9"] in
    let s10 := Receiver.run cfg Receiver.initial ten in
    let s9 := Receiver.step cfg s10 (Receiver.Release "m0") in
    let s7 := Receiver.run cfg s9 [Receiver.Release "m1"; Receiver.Release "m2"] in
    (Receiver.count s10, Receiver.paused s10) = (10%Z, true) ∧
    (Receiver.count s9, Receiver.paused s9) = (9%Z, true) ∧
    (Receiver.count s7, Receiver.paused s7) = (7%Z, false).
Proof.
  eexists. eexists. split; [vm_compute; reflexivity|].
  split; [vm_compute; reflexivity|].
  vm_compute. repeat split.
Qed.

(** Only one counter recovers: the message counter is far below its
    threshold but the bytes are still above theirs, and the receiver stays
    paused. *)
Example receiver_one_counter_recovers :
  let cfg := {| Receiver.max_bytes := 100; Receiver.max_messages := 10;
                Receiver.resume_threshold := 8 # 10 |} in
  let s := Receiver.run cfg Receiver.initial
             [Receiver.Deliver "big" 95; Receiver.Deliver "small" 5] in
  let s' := Receiver.step cfg s (Receiver.Release "small") in
  Receiver.paused s = true ∧
  (Receiver.bytes s', Receiver.count s', Receiver.paused s') = (95%Z, 1%Z, true).
Proof. vm_compute. split; reflexivity. Qed.

(** ** The batching aggregator *)

Section AggregatorProperties.
Import Aggregator.
Variable cfg : settings.










End AggregatorProperties.



(* ===================================================================== *)
(** * Part III. Further properties of the settings classes                *)
(* ===================================================================== *)

(** ** Calls of the constructor *)

Lemma settings_fully_defaulted cls :
  cls = BatchSettings ∨ cls = FlowControl → fully_defaulted cls.
Proof.
  intros [-> | ->]; (split; [reflexivity|]);
    apply (bool_decide_unpack _); vm_compute; exact I.
Qed.

Lemma collect_imap_inv {A B} (f : nat → A → result B) (l : list A) (l' : list B) :
  collect (imap f l) = Ok l' →
  ∀ i x, l !! i = Some x → ∃ v, l' !! i = Some v ∧ f i x = Ok v.
Proof.
  revert f l'. induction l as [|y l IH]; intros f l' H i x Hx; [discriminate|].
  cbn in H. destruct (f 0%nat y) as [b|e] eqn:Hf; [|discriminate].
  cbn in H. destruct (collect (imap (f ∘ S) l)) as [bs|e] eqn:Hc; [|discriminate].
  injection H as <-. destruct i as [|i].
  - injection Hx as <-. exists b. split; [reflexivity | exact Hf].
  - exact (IH (f ∘ S) bs Hc i x Hx).
Qed.

Lemma collect_imap_raise {A B} (f : nat → A → result B) (l : list A) (e : exn) :
  collect (imap f l) = Raise e →
  ∃ i x, l !! i = Some x ∧ f i x = Raise e.
Proof.
  revert f. induction l as [|y l IH]; intros f H; [discriminate|].
  cbn in H. destruct (f 0%nat y) as [b|e0] eqn:Hf.
  - cbn in H. destruct (collect (imap (f ∘ S) l)) as [bs|e1] eqn:Hc; [discriminate|].
    injection H as ->. destruct (IH (f ∘ S) Hc) as (i & x & Hx & Hfx).
    exists (S i), x. split; [exact Hx | exact Hfx].
  - injection H as ->. exists 0%nat, y. split; [reflexivity | exact Hf].
Qed.

Lemma forallb_imap_false {A B} (p : B → bool) (f : nat → A → B) (l : list A) i x :
  l !! i = Some x → p (f i x) = false → forallb p (imap f l) = false.
Proof.
  revert f i. induction l as [|y l IH]; intros f i Hx Hp; [discriminate|].
  cbn. destruct i as [|i].
  - injection Hx as ->. now rewrite Hp.
  - rewrite (IH (f ∘ S) i Hx Hp). apply andb_false_r.
Qed.

(** The only exception a constructor call raises is [TypeError]. *)
Lemma nt_new_raises_TypeError cls args (kw : gmap string pyval) e :
  nt_new cls args kw = Raise e → e = TypeError.
Proof.
  unfold nt_new. intros H.
  destruct (decide (length (_fields cls) < length args)%nat); [congruence|].
  destruct (decide (map_Forall _ kw)); [|congruence].
  destruct (collect _) as [items|e'] eqn:Hc; [discriminate|].
  injection H as ->.
  apply collect_imap_raise in Hc as (i & name & _ & Hb).
  unfold bind_param, default_for in Hb.
  destruct (args !! i), (kw !! name); try congruence.
  destruct (decide _); [|congruence].
  destruct (__defaults__ cls !! _); congruence.
Qed.

(** With a default for every field, a parameter fails to bind only when it
    is given both positionally and by keyword. *)
Lemma bind_param_full cls args (kw : gmap string pyval) i name d :
  length (__defaults__ cls) = length (_fields cls) →
  __defaults__ cls !! i = Some d →
  bind_param cls args kw i name
  = match args !! i, kw !! name with
    | Some _, Some _ => Raise TypeError
    | Some a, None => Ok a
    | None, Some b => Ok b
    | None, None => Ok d
    end.
Proof.
  intros Hlen Hd. unfold bind_param, default_for.
  rewrite Hlen, Nat.sub_diag, Nat.sub_0_r, Hd.
  destruct (decide (0 ≤ i)%nat); [reflexivity|lia].
Qed.

(** X1: a call of [BatchSettings] or [FlowControl] raises exactly when it
    has more positional arguments than fields, a keyword that is no field,
    or a keyword for a field already given positionally; the exception is
    then a [TypeError].  Missing arguments never raise. *)
Theorem constructor_raises_iff cls args (kw : gmap string pyval) :
  cls = BatchSettings ∨ cls = FlowControl →
  ((∃ e, nt_new cls args kw = Raise e) ↔
   (length (_fields cls) < length args)%nat ∨
   (∃ k v, kw !! k = Some v ∧
           (k ∉ _fields cls ∨
            ∃ i, _fields cls !! i = Some k ∧ (i < length args)%nat))) ∧
  (∀ e, nt_new cls args kw = Raise e → e = TypeError).
Proof.
  intros Hcls. destruct (settings_fully_defaulted cls Hcls) as [Hlen _].
  split; [|apply nt_new_raises_TypeError].
  unfold nt_new.
  destruct (decide (length (_fields cls) < length args)%nat) as [Hmany|Hfew].
  { split; [now left | intros _; now exists TypeError]. }
  destruct (decide (map_Forall _ kw)) as [Hkw|Hkw].
  2: { split; [|intros _; now exists TypeError].
       intros _. right. apply map_not_Forall in Hkw; [|apply _].
       destruct Hkw as (k & v & Hk & Hnot). exists k, v. split; [exact Hk | now left]. }
  destruct (collect _) as [items|e] eqn:Hc; cbn.
  - split; [intros [e He]; discriminate|].
    intros [Hmany | (k & v & Hk & [Hno | (i & Hi & Hlt)])].
    + lia.
    + destruct Hno. exact (Hkw k v Hk).
    + exfalso. destruct (collect_imap_inv _ _ _ Hc i k Hi) as (w & _ & Hb).
      destruct (lookup_lt_is_Some_2 args i Hlt) as [a Ha].
      unfold bind_param in Hb. rewrite Ha, Hk in Hb. discriminate.
  - split; [|intros _; now exists e].
    intros _. right.
    apply collect_imap_raise in Hc as (i & name & Hi & Hb).
    destruct (lookup_lt_is_Some_2 (__defaults__ cls) i) as [d Hd].
    { rewrite Hlen. eapply lookup_lt_Some, Hi. }
    rewrite (bind_param_full cls args kw i name d Hlen Hd) in Hb.
    destruct (args !! i) as [a|] eqn:Ha, (kw !! name) as [b|] eqn:Hb'; try discriminate.
    exists name, b. split; [exact Hb'|]. right. exists i. split; [exact Hi|].
    eapply lookup_lt_Some, Ha.
Qed.

Lemma constructor_raises_iff_witness :
  (∃ e, nt_new FlowControl [PInt 1; PInt 2] {[ "max_messages" := PInt 3 ]} = Raise e) ∧
  (∀ e, nt_new FlowControl [PInt 1; PInt 2] {[ "max_messages" := PInt 3 ]} = Raise e →
        e = TypeError).
Proof.
  destruct (constructor_raises_iff FlowControl [PInt 1; PInt 2]
              {[ "max_messages" := PInt 3 ]} (or_intror eq_refl)) as [Hiff Hexn].
  split; [|exact Hexn].
  apply Hiff. right. exists "max_messages", (PInt 3).
  split; [apply lookup_singleton_eq|].
  right. exists 1%nat. split; [reflexivity | cbn; lia].
Defined.

Lemma index_of_Some name names i :
  index_of name names = Some i → names !! i = Some name.
Proof.
  revert i. induction names as [|n names IH]; intros i H; [discriminate|].
  cbn in H. destruct (decide (n = name)) as [->|Hne].
  - injection H as <-. reflexivity.
  - destruct (index_of name names) as [j|]; [|discriminate].
    injection H as <-. exact (IH j eq_refl).
Qed.

Lemma index_of_lookup name names i :
  NoDup names → names !! i = Some name → index_of name names = Some i.
Proof.
  intros Hnd. revert i. induction Hnd as [|n names Hnotin Hnd IH]; intros i H;
    [discriminate|].
  cbn. destruct i as [|i].
  - injection H as ->. destruct (decide (name = name)); [reflexivity|congruence].
  - cbn in H. destruct (decide (n = name)) as [->|Hne].
    + destruct Hnotin. eapply list_elem_of_lookup_2, H.
    + rewrite (IH i H). reflexivity.
Qed.

(** The items of a constructed record, one by one. *)
Lemma nt_new_items cls args (kw : gmap string pyval) r i name :
  nt_new cls args kw = Ok r → _fields cls !! i = Some name →
  ∃ v, ob_items r !! i = Some v ∧ bind_param cls args kw i name = Ok v.
Proof.
  unfold nt_new. intros H Hi.
  destruct (decide (length (_fields cls) < length args)%nat); [discriminate|].
  destruct (decide (map_Forall _ kw)); [|discriminate].
  destruct (collect _) as [items|e] eqn:Hc; [|discriminate].
  injection H as <-. exact (collect_imap_inv _ _ _ Hc i name Hi).
Qed.

(** Reading a field by name reads its position. *)
Lemma nt_getattr_lookup (r : nt_obj) i name v :
  NoDup (_fields (ob_type r)) →
  _fields (ob_type r) !! i = Some name → ob_items r !! i = Some v →
  nt_getattr r name = Ok v.
Proof.
  intros Hnd Hi Hv. unfold nt_getattr.
  rewrite (index_of_lookup name _ i Hnd Hi), Hv. reflexivity.
Qed.

(** X2: in a call that succeeds, each field takes the positional argument
    at its position if there is one, else the keyword argument of its name
    if there is one, else its default. *)
Theorem constructor_binds_fields cls args (kw : gmap string pyval) r i name d :
  cls = BatchSettings ∨ cls = FlowControl →
  nt_new cls args kw = Ok r →
  _fields cls !! i = Some name →
  __defaults__ cls !! i = Some d →
  ob_items r !! i = Some (default (default d (kw !! name)) (args !! i)) ∧
  nt_getattr r name = Ok (default (default d (kw !! name)) (args !! i)).
Proof.
  intros Hcls Hr Hi Hd.
  destruct (settings_fully_defaulted cls Hcls) as [Hlen Hnd].
  destruct (nt_new_items cls args kw r i name Hr Hi) as (v & Hv & Hb).
  rewrite (bind_param_full cls args kw i name d Hlen Hd) in Hb.
  assert (v = default (default d (kw !! name)) (args !! i)) as <-.
  { destruct (args !! i), (kw !! name); cbn; congruence. }
  split; [exact Hv|].
  destruct (nt_new_inv cls args kw r Hr) as [Ht _].
  apply (nt_getattr_lookup r i name v); rewrite ?Ht; assumption.
Qed.

Lemma constructor_binds_fields_witness :
  let r := {| ob_type := BatchSettings;
              ob_items := [PInt 300; PFloat (decimal 5 2); PInt 5] |} in
  (ob_items r !! 2%nat = Some (PInt 5) ∧ nt_getattr r "max_messages" = Ok (PInt 5)) ∧
  (ob_items r !! 1%nat = Some (PFloat (decimal 5 2)) ∧
   nt_getattr r "max_latency" = Ok (PFloat (decimal 5 2))).
Proof.
  intros r.
  assert (nt_new BatchSettings [PInt 300] {[ "max_messages" := PInt 5 ]} = Ok r) as Hr
    by (vm_compute; reflexivity).
  split.
  - apply (constructor_binds_fields BatchSettings [PInt 300]
             {[ "max_messages" := PInt 5 ]} r 2 "max_messages" (PInt 1000)
             (or_introl eq_refl) Hr eq_refl eq_refl).
  - apply (constructor_binds_fields BatchSettings [PInt 300]
             {[ "max_messages" := PInt 5 ]} r 1 "max_latency" (PFloat (decimal 5 2))
             (or_introl eq_refl) Hr eq_refl eq_refl).
Defined.

(** ** [_make], [_replace] and indexing *)

(** X3: [cls._make] rebuilds a constructed record from its items, and
    raises [TypeError] on any iterable whose length is not the number of
    fields: unlike the constructor it fills in no default. *)
Theorem make_round_trip cls args (kw : gmap string pyval) r :
  nt_new cls args kw = Ok r →
  nt_make cls (ob_items r) = Ok r ∧
  (∀ short, length short ≠ length (_fields cls) →
            nt_make cls short = Raise TypeError).
Proof.
  intros Hr. destruct (nt_new_inv cls args kw r Hr) as [Ht Hl]. split.
  - unfold nt_make. destruct (decide _) as [_|Hne]; [|contradiction].
    destruct r as [t items]. cbn in *. now subst t.
  - intros short Hne. unfold nt_make.
    destruct (decide _) as [He|_]; [contradiction | reflexivity].
Qed.

Lemma make_round_trip_witness :
  let r := {| ob_type := BatchSettings;
              ob_items := [PInt 10000000; PFloat (decimal 5 2); PInt 1000] |} in
  nt_make BatchSettings (ob_items r) = Ok r ∧
  (∀ short, length short ≠ length (_fields BatchSettings) →
            nt_make BatchSettings short = Raise TypeError).
Proof.
  intros r. apply (make_round_trip BatchSettings [] ∅ r).
  vm_compute. reflexivity.
Defined.

Lemma length_replaced (kw : gmap string pyval) (names : list string) (items : list pyval) :
  length names = length items →
  length (zip_with (λ name old, default old (kw !! name)) names items) = length names.
Proof. intros H. rewrite length_zip_with. lia. Qed.

(** X4: [_replace] on a constructed record, with keywords that all name
    fields, returns a record of the same class in which each named field
    reads the new value and every other field reads as before; with any
    keyword that is no field it raises [ValueError]. *)
Theorem replace_sets_named_fields cls args (kw0 kw : gmap string pyval) r :
  nt_new cls args kw0 = Ok r →
  (map_Forall (λ k _, k ∈ _fields cls) kw →
   ∃ r', nt_replace r kw = Ok r' ∧ ob_type r' = cls ∧
         ∀ name, name ∈ _fields cls →
                 nt_getattr r' name
                 = match kw !! name with
                   | Some v => Ok v
                   | None => nt_getattr r name
                   end) ∧
  (¬ map_Forall (λ k _, k ∈ _fields cls) kw →
   nt_replace r kw = Raise ValueError).
Proof.
  intros Hr. destruct (nt_new_inv cls args kw0 r Hr) as [Ht Hl].
  destruct r as [t items]. cbn in Ht, Hl. subst t.
  unfold nt_replace. cbn [ob_type ob_items]. split.
  - intros Hkw. destruct (decide (map_Forall _ kw)) as [_|Hno]; [|contradiction].
    unfold nt_make. rewrite length_replaced by lia.
    destruct (decide _) as [_|Hne]; [|contradiction].
    eexists. split; [reflexivity|]. split; [reflexivity|].
    intros name Hin. unfold nt_getattr. cbn [ob_type ob_items].
    destruct (index_of name (_fields cls)) as [i|] eqn:Hidx.
    + apply index_of_Some in Hidx.
      rewrite lookup_zip_with, Hidx. cbn.
      destruct (lookup_lt_is_Some_2 items i) as [old Hold].
      { rewrite Hl. eapply lookup_lt_Some, Hidx. }
      rewrite Hold. cbn. destruct (kw !! name); reflexivity.
    + destruct (kw !! name) as [v|] eqn:Hk; [|reflexivity].
      exfalso. clear -Hin Hidx.
      induction (_fields cls) as [|n names IH]; [inversion Hin|].
      cbn in Hidx. destruct (decide (n = name)); [discriminate|].
      apply elem_of_cons in Hin as [->|Hin]; [congruence|].
      destruct (index_of name names); [discriminate|]. now apply IH.
  - intros Hno. destruct (decide (map_Forall _ kw)); [contradiction | reflexivity].
Qed.

Lemma replace_sets_named_fields_witness :
  let r := {| ob_type := FlowControl;
              ob_items := [PInt 104857600; PInt 100; PFloat (decimal 8 1); PInt 100;
                           PInt 100; PFloat (decimal 1 2); PInt 7200] |} in
  (map_Forall (λ k _, k ∈ _fields FlowControl)
     ({[ "max_messages" := PInt 5 ]} : gmap string pyval) →
   ∃ r', nt_replace r {[ "max_messages" := PInt 5 ]} = Ok r' ∧ ob_type r' = FlowControl ∧
         ∀ name, name ∈ _fields FlowControl →
                 nt_getattr r' name
                 = match ({[ "max_messages" := PInt 5 ]} : gmap string pyval) !! name with
                   | Some v => Ok v
                   | None => nt_getattr r name
                   end) ∧
  (¬ map_Forall (λ k _, k ∈ _fields FlowControl)
       ({[ "max_messages" := PInt 5 ]} : gmap string pyval) →
   nt_replace r {[ "max_messages" := PInt 5 ]} = Raise ValueError).
Proof.
  intros r. apply (replace_sets_named_fields FlowControl [] ∅ _ r).
  vm_compute. reflexivity.
Defined.

Lemma replaced_twice (kw1 kw2 : gmap string pyval) (names : list string) (items : list pyval) :
  zip_with (λ name old, default old (kw2 !! name)) names
    (zip_with (λ name old, default old (kw1 !! name)) names items)
  = zip_with (λ name old, default old ((kw2 ∪ kw1) !! name)) names items.
Proof.
  revert items. induction names as [|n names IH]; intros [|x items]; try reflexivity.
  cbn. rewrite IH. f_equal. rewrite lookup_union.
  destruct (kw2 !! n), (kw1 !! n); reflexivity.
Qed.

(** X5: two [_replace] calls in a row are one [_replace] with both sets of
    keywords, the later call winning where they overlap; this holds for
    the result and for the [ValueError] alike. *)
Theorem replace_composes (r r1 : nt_obj) (kw1 kw2 : gmap string pyval) :
  nt_replace r kw1 = Ok r1 →
  nt_replace r1 kw2 = nt_replace r (kw2 ∪ kw1).
Proof.
  unfold nt_replace. intros H1.
  destruct (decide (map_Forall _ kw1)) as [Hk1|]; [|discriminate].
  unfold nt_make in H1. destruct (decide _) as [Hlen|]; [|discriminate].
  injection H1 as <-. cbn [ob_type ob_items].
  destruct (decide (map_Forall _ kw2)) as [Hk2|Hk2],
           (decide (map_Forall _ (kw2 ∪ kw1))) as [Hk|Hk].
  - rewrite replaced_twice. reflexivity.
  - destruct Hk. now apply map_Forall_union_2.
  - destruct Hk2. intros k v Hkv. apply (Hk k v).
    rewrite lookup_union, Hkv. now destruct (kw1 !! k).
  - reflexivity.
Qed.

Lemma replace_composes_witness :
  let r := {| ob_type := BatchSettings;
              ob_items := [PInt 10000000; PFloat (decimal 5 2); PInt 1000] |} in
  let r1 := {| ob_type := BatchSettings;
               ob_items := [PInt 1; PFloat (decimal 5 2); PInt 2] |} in
  nt_replace r1 {[ "max_bytes" := PInt 3 ]}
  = nt_replace r ({[ "max_bytes" := PInt 3 ]}
                  ∪ {[ "max_bytes" := PInt 1; "max_messages" := PInt 2 ]}).
Proof.
  intros r r1. apply (replace_composes r r1). vm_compute. reflexivity.
Defined.

Lemma nt_getitem_in_range (o : nt_obj) (i : nat) v :
  ob_items o !! i = Some v →
  nt_getitem o (Z.of_nat i) = Ok v ∧
  nt_getitem o (Z.of_nat i - Z.of_nat (length (ob_items o))) = Ok v.
Proof.
  intros Hv. pose proof (lookup_lt_Some _ _ _ Hv) as Hlt.
  unfold nt_getitem. split.
  - destruct (Z.ltb_spec (Z.of_nat i) 0); [lia|].
    destruct (Z.leb_spec 0 (Z.of_nat i)); [|lia].
    destruct (Z.ltb_spec (Z.of_nat i) (Z.of_nat (length (ob_items o)))); [|lia].
    cbn. rewrite Nat2Z.id, Hv. reflexivity.
  - destruct (Z.ltb_spec (Z.of_nat i - Z.of_nat (length (ob_items o))) 0); [|lia].
    replace (Z.of_nat i - Z.of_nat (length (ob_items o))
             + Z.of_nat (length (ob_items o)))%Z with (Z.of_nat i) by lia.
    destruct (Z.leb_spec 0 (Z.of_nat i)); [|lia].
    destruct (Z.ltb_spec (Z.of_nat i) (Z.of_nat (length (ob_items o)))); [|lia].
    cbn. rewrite Nat2Z.id, Hv. reflexivity.
Qed.

Lemma nt_getitem_out_of_range (o : nt_obj) (z : Z) :
  (z < - Z.of_nat (length (ob_items o)) ∨ Z.of_nat (length (ob_items o)) ≤ z)%Z →
  nt_getitem o z = Raise IndexError.
Proof.
  intros Hz. unfold nt_getitem.
  destruct (Z.ltb_spec z 0).
  - destruct (Z.leb_spec 0 (z + Z.of_nat (length (ob_items o)))); [lia|]. reflexivity.
  - destruct (Z.leb_spec 0 z); [|lia].
    destruct (Z.ltb_spec z (Z.of_nat (length (ob_items o)))); [lia|]. reflexivity.
Qed.

(** X6: on a record of [BatchSettings] or [FlowControl], the field at
    position [i] of [_fields] is read alike by name, by index [i] and by the
    negative index [i - n]; an index below [-n] or from [n] on raises
    [IndexError] ([n] the number of fields). *)
Theorem fields_are_positions cls args (kw : gmap string pyval) r i name :
  cls = BatchSettings ∨ cls = FlowControl →
  nt_new cls args kw = Ok r →
  _fields cls !! i = Some name →
  nt_getitem r (Z.of_nat i) = nt_getattr r name ∧
  nt_getitem r (Z.of_nat i - Z.of_nat (length (_fields cls))) = nt_getattr r name ∧
  (∃ v, nt_getattr r name = Ok v) ∧
  ∀ z, (z < - Z.of_nat (length (_fields cls)) ∨ Z.of_nat (length (_fields cls)) ≤ z)%Z →
       nt_getitem r z = Raise IndexError.
Proof.
  intros Hcls Hr Hi.
  destruct (settings_fully_defaulted cls Hcls) as [_ Hnd].
  destruct (nt_new_inv cls args kw r Hr) as [Ht Hl].
  destruct (nt_new_items cls args kw r i name Hr Hi) as (v & Hv & _).
  assert (nt_getattr r name = Ok v) as Hattr
    by (apply (nt_getattr_lookup r i name v); rewrite ?Ht; assumption).
  destruct (nt_getitem_in_range r i v Hv) as [Hpos Hneg].
  rewrite Hl in Hneg. rewrite Hattr.
  split; [exact Hpos|]. split; [exact Hneg|]. split; [now exists v|].
  intros z Hz. apply nt_getitem_out_of_range. rewrite Hl. exact Hz.
Qed.

Lemma fields_are_positions_witness :
  let r := {| ob_type := BatchSettings;
              ob_items := [PInt 10000000; PFloat (decimal 5 2); PInt 1000] |} in
  nt_getitem r (Z.of_nat 2) = nt_getattr r "max_messages" ∧
  nt_getitem r (Z.of_nat 2 - Z.of_nat (length (_fields BatchSettings)))
    = nt_getattr r "max_messages" ∧
  (∃ v, nt_getattr r "max_messages" = Ok v) ∧
  ∀ z, (z < - Z.of_nat (length (_fields BatchSettings))
        ∨ Z.of_nat (length (_fields BatchSettings)) ≤ z)%Z →
       nt_getitem r z = Raise IndexError.
Proof.
  intros r. apply (fields_are_positions BatchSettings [] ∅ r 2 "max_messages").
  - left. reflexivity.
  - vm_compute. reflexivity.
  - reflexivity.
Defined.

(** ** Equality *)

Lemma SFcompare_antisym (x y : spec_float) :
  SFcompare y x = CompOpp <$> SFcompare x y.
Proof.
  destruct x as [sx|sx| |sx mx ex], y as [sy|sy| |sy my ey];
    try reflexivity;
    try (destruct sx; reflexivity); try (destruct sy; reflexivity);
    try (destruct sx, sy; reflexivity).
  unfold SFcompare.
  change (Pos.compare_cont Eq my mx) with (Pos.compare my mx).
  change (Pos.compare_cont Eq mx my) with (Pos.compare mx my).
  rewrite (Z.compare_antisym ex ey), (Pos.compare_antisym mx my).
  destruct sx, sy; try reflexivity;
    destruct (Z.compare ex ey); try reflexivity;
    destruct (Pos.compare mx my); reflexivity.
Qed.

Lemma SFeqb_sym (x y : spec_float) : SFeqb x y = SFeqb y x.
Proof.
  unfold SFeqb. rewrite (SFcompare_antisym x y).
  destruct (SFcompare x y) as [[]|]; reflexivity.
Qed.

Lemma py_eq_sym (a b : pyval) : py_eq a b = py_eq b a.
Proof.
  destruct a, b; cbn; try reflexivity;
    try apply Z.eqb_sym; try apply SFeqb_sym.
  apply bool_decide_ext. split; congruence.
Qed.

Lemma tuple_eq_sym (a b : list pyval) : tuple_eq a b = tuple_eq b a.
Proof.
  revert b. induction a as [|x a IH]; intros [|y b]; try reflexivity.
  cbn. now rewrite py_eq_sym, IH.
Qed.

(** A tuple compares equal only to tuples of its length. *)
Lemma tuple_eq_length (a b : list pyval) :
  tuple_eq a b = true → length a = length b.
Proof.
  revert b. induction a as [|x a IH]; intros [|y b] H; try discriminate;
    [reflexivity|].
  cbn in H. apply andb_true_iff in H as [_ H]. cbn. f_equal. now apply IH.
Qed.

(** X7: [==] on records is symmetric, also between [int], [bool] and
    [float] fields, and it never holds between a [BatchSettings] and a
    [FlowControl] record. *)
Theorem record_equality_symmetric (a b : nt_obj) :
  nt_eq a b = nt_eq b a ∧
  ∀ args args' (kw kw' : gmap string pyval),
    nt_new BatchSettings args kw = Ok a →
    nt_new FlowControl args' kw' = Ok b →
    nt_eq a b = false.
Proof.
  split; [apply tuple_eq_sym|].
  intros args args' kw kw' Ha Hb.
  apply nt_new_inv in Ha as [_ Hla], Hb as [_ Hlb].
  destruct (nt_eq a b) eqn:He; [|reflexivity].
  apply tuple_eq_length in He. rewrite Hla, Hlb in He. discriminate He.
Qed.

Lemma record_equality_symmetric_witness :
  let a := {| ob_type := BatchSettings;
              ob_items := [PInt 10000000; PFloat (decimal 5 2); PInt 1000] |} in
  let b := {| ob_type := FlowControl;
              ob_items := [PInt 104857600; PInt 100; PFloat (decimal 8 1); PInt 100;
                           PInt 100; PFloat (decimal 1 2); PInt 7200] |} in
  nt_eq a b = nt_eq b a ∧ nt_eq a b = false.
Proof.
  intros a b. split.
  - apply (proj1 (record_equality_symmetric a b)).
  - apply (proj2 (record_equality_symmetric a b) [] [] ∅ ∅);
      vm_compute; reflexivity.
Defined.

(** ** The module's names and attributes *)

#[global] Instance str_le_antisym : AntiSymm (=) str_le.
Proof. intros a b. apply String.leb_antisym. Qed.

Section MoreExports.
Context {message : Type}.
Implicit Types (set_module : message → message)
               (get_messages : pb_module → list (string * message)).

Lemma bind_names_Permutation get_messages get_messages' (modules : list pb_module) :
  (∀ m, (get_messages m).*1 ≡ₚ (get_messages' m).*1) →
  (modules ≫= λ m, (get_messages m).*1) ≡ₚ (modules ≫= λ m, (get_messages' m).*1).
Proof.
  intros H. induction modules as [|m modules IH]; [reflexivity|].
  cbn. now rewrite (H m), IH.
Qed.

(** X8: [__all__] does not depend on the order in which [get_messages]
    yields the messages of a module, nor on what is done to the messages:
    two runs that see the same names per module export the same list. *)
Theorem all_independent_of_order set_module set_module' get_messages get_messages' :
  (∀ m, (get_messages m).*1 ≡ₚ (get_messages' m).*1) →
  __all__ set_module get_messages = __all__ set_module' get_messages'.
Proof.
  intros H. unfold __all__.
  apply (Sorted_unique str_le); try apply Sorted_merge_sort; try apply _.
  rewrite !merge_sort_Permutation, !names_exported.
  apply Permutation_app_head, bind_names_Permutation, H.
Qed.

Lemma length_bind_names get_messages (modules : list pb_module) :
  length (modules ≫= λ m, (get_messages m).*1) = length (modules ≫= get_messages).
Proof.
  induction modules as [|m ms IH]; [reflexivity|].
  cbn. rewrite !length_app, length_fmap, IH. reflexivity.
Qed.

(** X9: sorting drops nothing.  [__all__] has two entries more than there
    are messages in the ten modules, and it is free of duplicates exactly
    when [names] is: a message name exported by two modules, or called
    like one of the two classes, is listed twice. *)
Theorem all_keeps_every_name set_module get_messages :
  length (__all__ set_module get_messages)
  = (2 + length ((_shared_modules ++ _local_modules) ≫= get_messages))%nat ∧
  (NoDup (__all__ set_module get_messages) ↔
   NoDup (["BatchSettings"; "FlowControl"]
          ++ ((_shared_modules ++ _local_modules) ≫= λ m, (get_messages m).*1))).
Proof.
  assert (__all__ set_module get_messages
            ≡ₚ ["BatchSettings"; "FlowControl"]
               ++ ((_shared_modules ++ _local_modules) ≫= λ m, (get_messages m).*1))
    as Hperm.
  { unfold __all__. rewrite merge_sort_Permutation. now rewrite names_exported. }
  split.
  - rewrite Hperm, length_app, length_bind_names. reflexivity.
  - now rewrite Hperm.
Qed.







End MoreExports.

Lemma exported_attr_iff {message} (set_module : message → message)
    (get_messages : pb_module → list (string * message)) x :
  is_Some (attrs (exported set_module get_messages) !! x) ↔
  ∃ m, m ∈ _shared_modules ++ _local_modules ∧ x ∈ (get_messages m).*1.
Proof.
  unfold exported. rewrite !attrs_export_modules. cbn [attrs].
  rewrite lookup_empty, is_Some_alt, !list_elem_of_bind.
  setoid_rewrite elem_of_app.
  split.
  - intros [[[] | (m & Hx & Hm)] | (m & Hx & Hm)]; exists m; tauto.
  - intros (m & [Hm | Hm] & Hx); [left; right | right]; now exists m.
Qed.

(** X12: the module attribute [BatchSettings] (and likewise [FlowControl])
    is the settings class when the body is done if no module exports a
    message of that name; if one does, the loops have rebound the attribute
    to that message. *)
Theorem classes_stay_bound {message} (set_module : message → message)
    (get_messages : pb_module → list (string * message)) (c : nt_class) :
  c = BatchSettings ∨ c = FlowControl →
  ((∀ m, m ∈ _shared_modules ++ _local_modules → cls_name c ∉ (get_messages m).*1) →
   module_namespace set_module get_messages !! cls_name c = Some (inl c)) ∧
  ((∃ m, m ∈ _shared_modules ++ _local_modules ∧ cls_name c ∈ (get_messages m).*1) →
   ∃ msg, module_namespace set_module get_messages !! cls_name c = Some (inr msg)).
Proof.
  intros Hc. unfold module_namespace. split.
  - intros Hfree.
    assert (attrs (exported set_module get_messages) !! cls_name c = None) as Hnone.
    { apply eq_None_not_Some. rewrite exported_attr_iff.
      intros (m & Hm & Hx). exact (Hfree m Hm Hx). }
    rewrite lookup_union_r by (rewrite lookup_fmap, Hnone; reflexivity).
    destruct Hc as [-> | ->]; vm_compute; reflexivity.
  - intros Hexp.
    apply (proj2 (exported_attr_iff set_module get_messages (cls_name c))) in Hexp
      as [msg Hmsg].
    exists msg. apply lookup_union_Some_l. rewrite lookup_fmap, Hmsg. reflexivity.
Qed.

Lemma classes_stay_bound_witness :
  let get_messages := λ m, match m with
                           | duration_pb2 => [("Duration", 1%nat)]
                           | pubsub_pb2 => [("Topic", 2%nat); ("FlowControl", 3%nat)]
                           | _ => []
                           end in
  module_namespace S get_messages !! "BatchSettings" = Some (inl BatchSettings) ∧
  ∃ msg, module_namespace S get_messages !! "FlowControl" = Some (inr msg).
Proof.
  intros get_messages. split.
  - apply (proj1 (classes_stay_bound S get_messages BatchSettings (or_introl eq_refl))).
    intros m Hm Hx. destruct m; cbn in Hx;
      repeat (apply elem_of_cons in Hx as [Hx | Hx]; [discriminate Hx|]);
      inversion Hx.
  - apply (proj2 (classes_stay_bound S get_messages FlowControl (or_intror eq_refl))).
    exists pubsub_pb2. split.
    + cbn. repeat first [apply list_elem_of_here | apply list_elem_of_further].
    + cbn. repeat first [apply list_elem_of_here | apply list_elem_of_further].
Defined.

Lemma all_independent_of_order_witness :
  let get_messages := λ m, match m with
                           | pubsub_pb2 => [("Topic", 1%nat); ("Subscription", 2%nat)]
                           | _ => []
                           end in
  let get_messages' := λ m, match m with
                            | pubsub_pb2 => [("Subscription", 2%nat); ("Topic", 1%nat)]
                            | _ => []
                            end in
  __all__ S get_messages = __all__ id get_messages'.
Proof.
  intros get_messages get_messages'.
  apply (all_independent_of_order S id get_messages get_messages').
  intros m. destruct m; cbn; try reflexivity. apply perm_swap.
Defined.



(** ** Positional and keyword arguments *)

Lemma collect_imap_ext {A B} (f g : nat → A → result B) (l : list A) :
  (∀ i x, l !! i = Some x → f i x = g i x) →
  collect (imap f l) = collect (imap g l).
Proof.
  revert f g. induction l as [|y l IH]; intros f g H; [reflexivity|].
  cbn. rewrite (H 0%nat y eq_refl), (IH (f ∘ S) (g ∘ S)); [reflexivity|].
  intros i x Hx. exact (H (S i) x Hx).
Qed.

(** The keywords that stand for positional arguments. *)
Lemma lookup_zipped_args (names : list string) (args : list pyval) i name :
  NoDup names → names !! i = Some name →
  (list_to_map (zip names args) : gmap string pyval) !! name = args !! i.
Proof.
  intros Hnd. revert args i.
  induction Hnd as [|n names Hnotin Hnd IH]; intros args i Hi; [discriminate|].
  destruct args as [|a args]; [now rewrite lookup_nil|].
  cbn [zip zip_with]. rewrite list_to_map_cons. destruct i as [|i].
  - injection Hi as ->. apply lookup_insert_eq.
  - cbn in Hi. rewrite lookup_insert_ne.
    + exact (IH args i Hi).
    + intros ->. destruct Hnotin. eapply list_elem_of_lookup_2, Hi.
Qed.

Lemma zipped_args_are_fields (names : list string) (args : list pyval) :
  map_Forall (λ k _, k ∈ names) (list_to_map (zip names args) : gmap string pyval).
Proof.
  intros k v Hk. apply elem_of_list_to_map_2 in Hk.
  apply elem_of_zip_l in Hk. exact Hk.
Qed.

(** X13: giving values positionally is the same as giving them by the names
    of their positions: a call with positional arguments and keywords for
    other fields returns, or raises, as the call that passes everything by
    keyword. *)
Theorem positional_is_keyword cls args (kw : gmap string pyval) :
  cls = BatchSettings ∨ cls = FlowControl →
  (length args ≤ length (_fields cls))%nat →
  (∀ i name, _fields cls !! i = Some name → (i < length args)%nat →
             kw !! name = None) →
  nt_new cls args kw = nt_new cls [] (list_to_map (zip (_fields cls) args) ∪ kw).
Proof.
  intros Hcls Hlen Hfree.
  destruct (settings_fully_defaulted cls Hcls) as [_ Hnd].
  unfold nt_new.
  destruct (decide (length (_fields cls) < length args)%nat); [lia|].
  destruct (decide (length (_fields cls) < length [])%nat) as [Hlt|_];
    [cbn in Hlt; lia|].
  assert (∀ i name, _fields cls !! i = Some name →
            bind_param cls args kw i name
            = bind_param cls [] (list_to_map (zip (_fields cls) args) ∪ kw) i name)
    as Hbind.
  { intros i name Hi. unfold bind_param.
    rewrite lookup_nil, lookup_union, (lookup_zipped_args _ args i name Hnd Hi).
    destruct (args !! i) as [a|] eqn:Ha.
    - rewrite (Hfree i name Hi) by (eapply lookup_lt_Some, Ha). reflexivity.
    - destruct (kw !! name); reflexivity. }
  destruct (decide (map_Forall _ kw)) as [Hkw|Hkw],
           (decide (map_Forall _ (_ ∪ kw))) as [Hall|Hall].
  - rewrite (collect_imap_ext _ _ _ Hbind). reflexivity.
  - destruct Hall. apply map_Forall_union_2; [apply zipped_args_are_fields | exact Hkw].
  - destruct Hkw. intros k v Hk.
    destruct (lookup_union_is_Some (list_to_map (zip (_fields cls) args)) kw k)
      as [_ [w Hw]]; [right; eauto|].
    exact (Hall k w Hw).
  - reflexivity.
Qed.

Lemma positional_is_keyword_witness :
  nt_new FlowControl [PInt 1000; PInt 10] {[ "max_lease_duration" := PInt 600 ]}
  = nt_new FlowControl []
      (list_to_map (zip (_fields FlowControl) [PInt 1000; PInt 10])
       ∪ {[ "max_lease_duration" := PInt 600 ]}).
Proof.
  apply (positional_is_keyword FlowControl [PInt 1000; PInt 10]
           {[ "max_lease_duration" := PInt 600 ]}).
  - right. reflexivity.
  - cbn. lia.
  - intros i name Hi Hlt. cbn in Hlt.
    destruct i as [|[|i]]; [| |lia]; injection Hi as <-; reflexivity.
Defined.

(** X14: replacing fields of a record built by keywords is building the
    record with the two sets of keywords merged, the replacement winning. *)
Theorem replace_after_construction cls (kw0 kw : gmap string pyval) r :
  cls = BatchSettings ∨ cls = FlowControl →
  nt_new cls [] kw0 = Ok r →
  map_Forall (λ k _, k ∈ _fields cls) kw →
  nt_replace r kw = nt_new cls [] (kw ∪ kw0).
Proof.
  intros Hcls Hr Hkw.
  destruct (settings_fully_defaulted cls Hcls) as [Hlen _].
  assert (map_Forall (λ k _, k ∈ _fields cls) kw0) as Hkw0.
  { unfold nt_new in Hr.
    destruct (decide (length (_fields cls) < length [])%nat); [discriminate|].
    destruct (decide (map_Forall _ kw0)); [assumption | discriminate]. }
  rewrite (nt_new_keywords cls kw0 Hlen Hkw0) in Hr. injection Hr as <-.
  rewrite (nt_new_keywords cls (kw ∪ kw0) Hlen)
    by (apply map_Forall_union_2; assumption).
  unfold nt_replace. cbn [ob_type ob_items].
  destruct (decide (map_Forall _ kw)) as [_|Hno]; [|contradiction].
  unfold nt_make. rewrite replaced_twice, length_zip_with.
  destruct (decide _) as [_|Hne]; [reflexivity | lia].
Qed.

Lemma replace_after_construction_witness :
  let r := {| ob_type := BatchSettings;
              ob_items := [PInt 300; PFloat (decimal 5 2); PInt 1000] |} in
  nt_replace r {[ "max_messages" := PInt 5 ]}
  = nt_new BatchSettings [] ({[ "max_messages" := PInt 5 ]} ∪ {[ "max_bytes" := PInt 300 ]}).
Proof.
  intros r.
  apply (replace_after_construction BatchSettings {[ "max_bytes" := PInt 300 ]}
           {[ "max_messages" := PInt 5 ]} r).
  - left. reflexivity.
  - vm_compute. reflexivity.
  - apply map_Forall_singleton. cbn.
    repeat first [apply list_elem_of_here | apply list_elem_of_further].
Defined.

(** ** Docstrings *)

Lemma assign_docs_dom (l : list (doc_target * string)) (ds : docs) :
  Forall well_targeted l →
  ∃ ds', assign_docs ds l = Ok ds' ∧ dom ds' = dom ds ∪ list_to_set (doc_key <$> l).
Proof.
  intros Hl. revert ds. induction Hl as [|a l Ha _ IH]; intros ds.
  - exists ds. split; [reflexivity|]. cbn. now rewrite (right_id_L ∅ (∪)).
  - cbn [assign_docs]. unfold assign_doc, well_targeted, doc_key in *. cbn [fmap list_fmap].
    destruct a as [[cls|cls field] text]; cbn [fst snd] in *.
    + cbn. destruct (IH (<[(cls_name cls, None) := text]> ds)) as (ds' & Hds' & Hdom).
      exists ds'. split; [exact Hds'|].
      rewrite Hdom, dom_insert_L, (comm_L (∪) _ (dom ds)), <- (assoc_L (∪)).
      reflexivity.
    + destruct (decide (field ∈ _fields cls)) as [_|Hno]; [|contradiction].
      cbn. destruct (IH (<[(cls_name cls, Some field) := text]> ds))
        as (ds' & Hds' & Hdom).
      exists ds'. split; [exact Hds'|].
      rewrite Hdom, dom_insert_L, (comm_L (∪) _ (dom ds)), <- (assoc_L (∪)).
      reflexivity.
Qed.

Lemma doc_assignments_well_targeted (dedent : string → string) :
  Forall well_targeted (doc_assignments dedent).
Proof.
  unfold doc_assignments.
  repeat (apply Forall_cons; split;
          [first [exact I
                 | unfold well_targeted; cbn;
                   repeat first [apply list_elem_of_here | apply list_elem_of_further]]|]).
  apply Forall_nil_2.
Qed.

(** X15: the docstring assignments never raise: each addresses a field its
    class has.  On Python 3.5 or later they document both classes and every
    one of their ten fields, and nothing else; on an older Python the module
    assigns no docstring at all. *)
Theorem docstrings_cover_the_fields (dedent : string → string) (major minor : Z) :
  ∃ ds, module_docs dedent major minor = Ok ds ∧
        dom ds = (if at_least_3_5 major minor
                  then list_to_set (doc_targets BatchSettings ++ doc_targets FlowControl)
                  else ∅) ∧
        (at_least_3_5 major minor = true ↔
         (3 < major ∨ major = 3 ∧ 5 ≤ minor)%Z).
Proof.
  unfold module_docs.
  assert (at_least_3_5 major minor = true ↔ (3 < major ∨ major = 3 ∧ 5 ≤ minor)%Z)
    as Hver.
  { unfold at_least_3_5.
    rewrite orb_true_iff, andb_true_iff, Z.ltb_lt, Z.eqb_eq, Z.leb_le. reflexivity. }
  destruct (at_least_3_5 major minor).
  - destruct (assign_docs_dom (doc_assignments dedent) ∅
                (doc_assignments_well_targeted dedent)) as (ds & Hds & Hdom).
    exists ds. split; [exact Hds|]. split; [|exact Hver].
    rewrite Hdom, dom_empty_L, (left_id_L ∅ (∪)). reflexivity.
  - exists ∅. split; [reflexivity|]. split; [apply dom_empty_L | exact Hver].
Qed.
